(** * A shallow embedding of the trading engine of forex-bot (src/main.py)

    Python floats are modelled as [F := option Q]: [Some q] is a finite
    value computed exactly, [None] is NaN.  Comparisons with NaN are false,
    as in Python; arithmetic propagates NaN.  Infinities are not modelled. *)

From Stdlib Require Import List ZArith QArith Qminmax Lia Bool String Ascii.
From Stdlib Require Import Qround Qabs Lqa.
From Stdlib Require DecimalString DecimalPos DecimalZ.
Import ListNotations.
Open Scope Q_scope.

(** ** Floats *)

Definition F := option Q.

Definition fadd (a b : F) : F :=
  match a, b with Some x, Some y => Some (x + y) | _, _ => None end.
Definition fsub (a b : F) : F :=
  match a, b with Some x, Some y => Some (x - y) | _, _ => None end.
Definition fmul (a b : F) : F :=
  match a, b with Some x, Some y => Some (x * y) | _, _ => None end.
Definition fneg (a : F) : F := option_map Qopp a.
Definition fabs (a : F) : F := option_map Qabs a.

(** Elementwise pandas/numpy division: never raises. *)
Definition fdiv_np (a b : F) : F :=
  match a, b with Some x, Some y => Some (x / y) | _, _ => None end.

Definition Qlt_bool (x y : Q) : bool := negb (Qle_bool y x).

(** Python comparisons of floats: false as soon as one side is NaN. *)
Definition flt (a b : F) : bool :=
  match a, b with Some x, Some y => Qlt_bool x y | _, _ => false end.
Definition fle (a b : F) : bool :=
  match a, b with Some x, Some y => Qle_bool x y | _, _ => false end.
Definition fgt (a b : F) : bool := flt b a.
Definition fge (a b : F) : bool := fle b a.

(** numpy.maximum: NaN propagates. *)
Definition np_maximum (a b : F) : F :=
  match a, b with
  | Some x, Some y => Some (if Qlt_bool x y then y else x)
  | _, _ => None
  end.

(** Python's builtin [max(a, b)]: keeps [a] unless [b > a]. *)
Definition py_max (a b : F) : F := if fgt b a then b else a.

(** ** Candles and indicator frames *)

Record Candle := mkCandle {
  time : Z; open : Q; high : Q; low : Q; close : Q; volume : Q }.

Record Row := mkRow {
  candle : Candle;
  ema_fast : F; ema_slow : F; rsi : F; atr : F }.

(** [Series.ewm(alpha=a, adjust=False).mean()] as pandas computes it
    (ignore_na=False, min_periods=0): the state is the running weighted
    value (NaN until the first observation) and the old weight. *)
Fixpoint ewm_go (alpha : Q) (weighted : F) (old_wt : Q) (xs : list F)
  : list F :=
  match xs with
  | [] => []
  | cur :: rest =>
      match weighted with
      | Some w =>
          let old_wt1 := old_wt * (1 - alpha) in
          match cur with
          | Some c =>
              let w' := if Qeq_bool w c then w
                        else (old_wt1 * w + alpha * c) / (old_wt1 + alpha) in
              Some w' :: ewm_go alpha (Some w') 1 rest
          | None => Some w :: ewm_go alpha (Some w) old_wt1 rest
          end
      | None => cur :: ewm_go alpha cur old_wt rest
      end
  end.

Definition ewm (alpha : Q) (xs : list F) : list F :=
  match xs with
  | [] => []
  | x :: rest => x :: ewm_go alpha x 1 rest
  end.

(** [Series.shift()]: NaN first, then the series without its last value. *)
Definition shift (xs : list F) : list F :=
  match xs with [] => [] | _ => None :: removelast xs end.

(** [Series.diff()]. *)
Definition diff (xs : list F) : list F := map (fun p => fsub (fst p) (snd p)) (combine xs (shift xs)).

Definition clip_lower0 (x : F) : F := option_map (fun q => Qmax q 0) x.
Definition clip_upper0 (x : F) : F := option_map (fun q => Qmin q 0) x.

(** [Series.replace(0, np.nan)]. *)
Definition replace0_nan (x : F) : F :=
  match x with Some q => if Qeq_bool q 0 then None else Some q | None => None end.

Definition zipF (f : F -> F -> F) (xs ys : list F) : list F :=
  map (fun p => f (fst p) (snd p)) (combine xs ys).

Definition closes (df : list Candle) : list F := map (fun c => Some (close c)) df.
Definition highs (df : list Candle) : list F := map (fun c => Some (high c)) df.
Definition lows (df : list Candle) : list F := map (fun c => Some (low c)) df.

Definition ema_fast_series (df : list Candle) : list F := ewm (2 # 10) (closes df).
Definition ema_slow_series (df : list Candle) : list F := ewm (2 # 22) (closes df).

Definition gain_series (df : list Candle) : list F :=
  ewm (1 # 14) (map clip_lower0 (diff (closes df))).
Definition loss_series (df : list Candle) : list F :=
  ewm (1 # 14) (map (fun d => fneg (clip_upper0 d)) (diff (closes df))).

Definition rsi_of (g l : F) : F :=
  let rs := fdiv_np g (replace0_nan l) in
  fsub (Some 100) (fdiv_np (Some 100) (fadd (Some 1) rs)).

Definition rsi_series (df : list Candle) : list F :=
  zipF rsi_of (gain_series df) (loss_series df).

Definition tr_series (df : list Candle) : list F :=
  let pc := shift (closes df) in
  zipF np_maximum (zipF fsub (highs df) (lows df))
    (zipF np_maximum (map fabs (zipF fsub (highs df) pc))
                     (map fabs (zipF fsub (lows df) pc))).

Definition atr_series (df : list Candle) : list F := ewm (1 # 14) (tr_series df).

Fixpoint build_rows (cs : list Candle) (f s r a : list F) : list Row :=
  match cs, f, s, r, a with
  | c :: cs', x :: f', y :: s', z :: r', w :: a' =>
      mkRow c x y z w :: build_rows cs' f' s' r' a'
  | _, _, _, _, _ => []
  end.

(** [compute_indicators] (main.py, lines 247-265). *)
Definition compute_indicators (df : list Candle) : list Row :=
  build_rows df (ema_fast_series df) (ema_slow_series df) (rsi_series df) (atr_series df).

(** ** Exceptions *)

(** A Python exception: its class name and [str(e)]. *)
Record exn := mkExn { exn_class : string; exn_str : string }.

Inductive outcome (A : Type) : Type :=
| Ok : A -> outcome A
| Raise : exn -> outcome A.
Arguments Ok {A} _.
Arguments Raise {A} _.

Definition IndexError : exn := mkExn "IndexError" "single positional indexer is out-of-bounds".

(** [df.iloc[-k]] for [k >= 1]. *)
Definition iloc_neg {A} (k : nat) (l : list A) : outcome A :=
  match nth_error (rev l) (k - 1) with
  | Some x => Ok x
  | None => Raise IndexError
  end.

(** ** Signal generator *)

(** [generate_signal] (main.py, lines 267-280): returns "buy", "sell" or "". *)
Definition generate_signal (df : list Row) : outcome string :=
  if Nat.ltb (List.length df) 25 then Ok ""%string else
  match iloc_neg 1 df, iloc_neg 2 df with
  | Raise e, _ => Raise e
  | _, Raise e => Raise e
  | Ok last, Ok prev =>
      let bull_cross := fle (ema_fast prev) (ema_slow prev) && fgt (ema_fast last) (ema_slow last) in
      let bear_cross := fge (ema_fast prev) (ema_slow prev) && flt (ema_fast last) (ema_slow last) in
      if bull_cross && flt (rsi last) (Some 70) then Ok "buy"%string
      else if bear_cross && fgt (rsi last) (Some 30) then Ok "sell"%string
      else Ok ""%string
  end.

Definition mkc (t : Z) (o h l c : Q) : Candle := mkCandle t o h l c 1.

(** Candles from a list of closes, with a fixed high/low band around each close. *)
Fixpoint candles_of_closes (t : Z) (cs : list Q) : list Candle :=
  match cs with
  | [] => []
  | c :: rest => mkc t c (c + 1) (c - 1) c :: candles_of_closes (t + 60) rest
  end.

(** ** Symbol routing *)

Open Scope string_scope.
Open Scope list_scope.

Fixpoint contains_char (c : ascii) (s : string) : bool :=
  match s with
  | EmptyString => false
  | String x rest => Ascii.eqb x c || contains_char c rest
  end.

(** [s.split(c)[0]]: the part of [s] before the first [c]. *)
Fixpoint split_first (c : ascii) (s : string) : string :=
  match s with
  | EmptyString => EmptyString
  | String x rest => if Ascii.eqb x c then EmptyString else String x (split_first c rest)
  end.

(** [str.upper()] on ASCII text. *)
Definition upper_char (x : ascii) : ascii :=
  let n := nat_of_ascii x in
  if (97 <=? n)%nat && (n <=? 122)%nat then ascii_of_nat (n - 32) else x.

Fixpoint upper (s : string) : string :=
  match s with
  | EmptyString => EmptyString
  | String x rest => String (upper_char x) (upper rest)
  end.

Inductive BrokerName := Alpaca | Oanda.

Definition broker_name (b : BrokerName) : string :=
  match b with Alpaca => "alpaca" | Oanda => "oanda" end.

Definition alpaca_bases : list string := ["BTC"; "ETH"; "SOL"; "LTC"; "BCH"; "DOGE"].

(** [AlpacaBroker.instrument_ok] (main.py, lines 99-101). *)
Definition AlpacaBroker_instrument_ok (symbol : string) : bool :=
  contains_char "/" symbol
  && existsb (String.eqb (upper (split_first "/" symbol))) alpaca_bases.

(** [OandaBroker.instrument_ok] (main.py, lines 187-189). *)
Definition OandaBroker_instrument_ok (symbol : string) : bool :=
  contains_char "_" symbol.

Definition instrument_ok (b : BrokerName) (symbol : string) : bool :=
  match b with
  | Alpaca => AlpacaBroker_instrument_ok symbol
  | Oanda => OandaBroker_instrument_ok symbol
  end.

(** [Engine._broker_for] (main.py, lines 301-307). *)
Definition broker_for (symbol : string) : option BrokerName :=
  if instrument_ok Alpaca symbol then Some Alpaca
  else if instrument_ok Oanda symbol then Some Oanda
  else None.

(** The same membership tests consulted in the opposite order; used only
    to compare routing results. *)
Definition broker_for_oanda_first (symbol : string) : option BrokerName :=
  if instrument_ok Oanda symbol then Some Oanda
  else if instrument_ok Alpaca symbol then Some Alpaca
  else None.

(** ** Broker responses *)

(** A JSON value the engine passes to [float()]: a number, or something
    [float()] rejects with ValueError. *)
Inductive AccVal := Num (x : F) | NotNumeric.

(** The account dict: only the keys the engine reads. *)
Record Account := mkAccount { acc_equity : option AccVal; acc_balance : option AccVal }.

Record Position := mkPosition { pos_symbol : string; pos_side : string }.

(** What [positions()] returns: a JSON list, or another JSON value. *)
Inductive PosJson := PList (ps : list Position) | PObject.

(** What [market_order] returns: the broker's order JSON, or the error dict
    built for an HTTP status >= 400. *)
Inductive OrderJson := OrderOk (id : string) | OrderError (status : Z) (body : string).

(** The broker calls the engine makes, in the order it makes them. *)
Inductive Call :=
| CAccount (b : BrokerName)
| CPositions (b : BrokerName)
| CFetch (b : BrokerName) (symbol tf : string) (limit : nat)
| COrder (b : BrokerName) (symbol side : string) (qty : F).

(** The outside world: each broker call is answered as a function of the
    calls made before it (newest first), so any sequence of replies,
    failures included, can be described. *)
Record Env := mkEnv {
  env_account : BrokerName -> list Call -> outcome Account;
  env_positions : BrokerName -> list Call -> outcome PosJson;
  env_candles : BrokerName -> list Call -> string -> string -> nat -> outcome (list Candle);
  env_order : BrokerName -> list Call -> string -> string -> F -> outcome OrderJson }.

(** ** A state and exception monad over the call log *)

Definition M (A : Type) : Type := list Call -> outcome A * list Call.

Definition ret {A} (x : A) : M A := fun log => (Ok x, log).

Definition bind {A B} (m : M A) (k : A -> M B) : M B :=
  fun log => match m log with
             | (Ok x, log1) => k x log1
             | (Raise e, log1) => (Raise e, log1)
             end.

Notation "'let*' x ':=' m 'in' k" := (bind m (fun x => k))
  (at level 200, x name, m at level 100, k at level 200).

(** [try: m except Exception as e: h(e)]: effects of [m] before the raise stay. *)
Definition try_except {A} (m : M A) (h : exn -> M A) : M A :=
  fun log => match m log with
             | (Ok x, log1) => (Ok x, log1)
             | (Raise e, log1) => h e log1
             end.

Definition lift {A} (o : outcome A) : M A := fun log => (o, log).

Definition ZeroDivisionError : exn := mkExn "ZeroDivisionError" "float division by zero".
Definition ValueError : exn := mkExn "ValueError" "could not convert string to float".

(** Python float division [a / b]: raises when [b] is zero, NaN otherwise propagates. *)
Definition fdiv_py (a b : F) : outcome F :=
  match b with
  | Some y => if Qeq_bool y 0 then Raise ZeroDivisionError
              else Ok (match a with Some x => Some (x / y) | None => None end)
  | None => Ok None
  end.

(** [float(v)]. *)
Definition py_float (v : AccVal) : outcome F :=
  match v with Num x => Ok x | NotNumeric => Raise ValueError end.

(** Round [n / d] ([d > 0]) to the nearest integer, ties to even. *)
Definition round_half_even (n d : Z) : Z :=
  let fl := (n / d)%Z in
  let r := (n - fl * d)%Z in
  if (2 * r <? d)%Z then fl
  else if (d <? 2 * r)%Z then (fl + 1)%Z
  else if Z.even fl then fl else (fl + 1)%Z.

Arguments round_half_even : simpl never.

(** [round(x, 6)] on a float: to the nearest multiple of 1e-6, ties to even. *)
Definition py_round6 (x : F) : F :=
  match x with
  | None => None
  | Some q =>
      let q' := q * inject_Z 1000000 in
      Some (round_half_even (Qnum q') (Zpos (Qden q')) # 1000000)
  end.

(** [EngineConfig] as [Engine.__init__] reads it. *)
Record Engine := mkEngine {
  symbols : list string;
  timeframe : string;
  risk_percent : F;
  max_positions : Z;
  enable_auto : bool }.

Inductive TradeResult :=
| RError (symbol msg : string)                 (* {"symbol": s, "error": msg} *)
| RWarn (symbol msg : string)                  (* {"symbol": s, "warn": msg} *)
| RSignal (symbol sig : string)                (* {"symbol": s, "signal": sig} *)
| RInfo (symbol msg : string)                  (* {"symbol": s, "info": msg} *)
| RTrade (symbol sig : string) (qty : F) (order : OrderJson).

Definition result_symbol (r : TradeResult) : string :=
  match r with
  | RError s _ | RWarn s _ | RSignal s _ | RInfo s _ | RTrade s _ _ _ => s
  end.

Section Engine.

Variable env : Env.

(** The broker adapter methods, one HTTP exchange each. *)
Definition account (b : BrokerName) : M Account :=
  fun log => (env_account env b log, CAccount b :: log).
Definition positions (b : BrokerName) : M PosJson :=
  fun log => (env_positions env b log, CPositions b :: log).
Definition fetch_candles (b : BrokerName) (symbol tf : string) (limit : nat) : M (list Candle) :=
  fun log => (env_candles env b log symbol tf limit, CFetch b symbol tf limit :: log).
Definition market_order (b : BrokerName) (symbol side : string) (qty : F) : M OrderJson :=
  fun log => (env_order env b log symbol side qty, COrder b symbol side qty :: log).

(** [Engine._equity] (main.py, lines 320-327). *)
Definition equity (b : BrokerName) : M F :=
  try_except
    (let* acc := account b in
     let v := match acc_equity acc with
              | Some v => v
              | None => match acc_balance acc with Some v => v | None => Num (Some 0) end
              end in
     lift (py_float v))
    (fun _ => ret (Some 0)).

(** Lines 333-336 of [Engine._size_from_risk], after equity and the last
    row have been read: the unrounded quantity. *)
Definition raw_qty (eq rp atr_last : F) : outcome F :=
  let atr := py_max atr_last (Some (1 # 100000000)) in
  match fdiv_py rp (Some 100) with
  | Raise e => Raise e
  | Ok r =>
      let risk_amt := fmul eq r in
      fdiv_py risk_amt atr
  end.

(** Lines 333-338: the clamped, rounded quantity. *)
Definition size_core (eq rp atr_last : F) : outcome F :=
  match raw_qty eq rp atr_last with
  | Raise e => Raise e
  | Ok qty => Ok (py_max (Some 1) (py_round6 qty))
  end.

(** [Engine._size_from_risk] (main.py, lines 329-338). *)
Definition size_from_risk (eng : Engine) (b : BrokerName) (symbol : string) (df : list Row) : M F :=
  let* eq := equity b in
  let* last := lift (iloc_neg 1 df) in
  lift (size_core eq (risk_percent eng) (atr last)).

(** [Engine._trade_once] (main.py, lines 340-363). *)
Definition trade_once (eng : Engine) (symbol : string) : M TradeResult :=
  match broker_for symbol with
  | None => ret (RError symbol "No broker supports this symbol")
  | Some br =>
      let* df := fetch_candles br symbol (timeframe eng) 300 in
      match df with
      | [] => ret (RWarn symbol "no candles")
      | _ =>
          let df := compute_indicators df in
          let* sig := lift (generate_signal df) in
          if String.eqb sig "" then ret (RSignal symbol "") else
          let* full := try_except
                         (let* pos := positions br in
                          ret (match pos with
                               | PList ps => (max_positions eng <=? Z.of_nat (List.length ps))%Z
                               | PObject => false
                               end))
                         (fun _ => ret false) in
          if full then ret (RInfo symbol "max positions reached") else
          let* qty := size_from_risk eng br symbol df in
          let* order := market_order br symbol sig qty in
          ret (RTrade symbol sig qty order)
      end
  end.

(** The body of [Engine._loop]'s [while] (main.py, lines 369-375): one tick
    over the given symbols, each in its own [try/except Exception]. *)
Fixpoint tick_symbols (eng : Engine) (syms : list string) : M (list TradeResult) :=
  match syms with
  | [] => ret []
  | sym :: rest =>
      let* r := try_except (trade_once eng sym) (fun e => ret (RError sym (exn_str e))) in
      let* rs := tick_symbols eng rest in
      ret (r :: rs)
  end.

Definition loop_tick (eng : Engine) : M (list TradeResult) := tick_symbols eng (symbols eng).

End Engine.

(** ** Concrete inputs used by the examples below *)

Definition closes_base : list Q :=
  [100;90;99;89;98;88;97;87;96;86;95;85;94;84;93;83;92;82;91;81;90;80;89].

(** 24 candles: the EMA(9) crosses above the EMA(21) on the last bar, RSI about 51. *)
Definition candles24 : list Candle := candles_of_closes 0 (closes_base ++ [120]).

(** 26 candles with the same crossover on the last bar. *)
Definition candles26 : list Candle := candles_of_closes 0 ([101; 91] ++ closes_base ++ [120]).

(** 30 candles whose closes rise at every step. *)
Definition candles_rising : list Candle :=
  candles_of_closes 0 (map (fun n => inject_Z (Z.of_nat n)) (seq 1 30)).

Definition order_calls (log : list Call) : list (BrokerName * string * string) :=
  flat_map (fun c => match c with COrder b s sd _ => [(b, s, sd)] | _ => [] end) log.

(** A broker that holds one long BTC/USD position, has 10000 of equity and
    serves [candles26]. *)
Definition env_long_held : Env :=
  mkEnv (fun _ _ => Ok (mkAccount (Some (Num (Some 10000))) None))
        (fun _ _ => Ok (PList [mkPosition "BTC/USD" "long"]))
        (fun _ _ _ _ _ => Ok candles26)
        (fun _ _ _ _ _ => Ok (OrderOk "o-1")).

(** The same broker with the given account reply. *)
Definition env_with_account (acc : outcome Account) : Env :=
  mkEnv (fun _ _ => acc) (env_positions env_long_held) (env_candles env_long_held)
        (env_order env_long_held).

Definition engine_default : Engine :=
  mkEngine ["BTC/USD"] "1Min" (Some (1 # 2)) 3 true.

Definition frame24 : list Row := compute_indicators candles24.
Definition frame26 : list Row := compute_indicators candles26.

Fixpoint deltas (p : Q) (xs : list Q) : list Q :=
  match xs with [] => [] | y :: ys => (y - p) :: deltas y ys end.

(** No close is below the one before it. *)
Fixpoint nondecreasing (xs : list Q) : Prop :=
  match xs with
  | a :: ((b :: _) as rest) => a <= b /\ nondecreasing rest
  | _ => True
  end.

(** What the [except] clause of the tick makes of one symbol's outcome. *)
Definition caught_result (sym : string) (o : outcome TradeResult) : TradeResult :=
  match o with Ok r => r | Raise e => RError sym (exn_str e) end.

(** ** Configuration, webhook authentication and commands *)

(** Configuration values, header values and message texts are modelled as
    Latin-1 text, one [ascii] per code point U+0000-U+00FF (HTTP headers
    reach the code Latin-1 decoded); on it [str.isspace], [str.strip],
    [str.lower] and [str.split()] are as below.  [str.isspace] holds for
    U+0009-U+000D, U+001C-U+0020, U+0085 and U+00A0. *)
Definition py_isspace (c : ascii) : bool :=
  let n := nat_of_ascii c in
  ((9 <=? n) && (n <=? 13))%nat || ((28 <=? n) && (n <=? 32))%nat
  || (n =? 133)%nat || (n =? 160)%nat.

Fixpoint lstrip (s : string) : string :=
  match s with
  | EmptyString => EmptyString
  | String c rest => if py_isspace c then lstrip rest else s
  end.

Fixpoint rstrip (s : string) : string :=
  match s with
  | EmptyString => EmptyString
  | String c rest =>
      let r := rstrip rest in
      if py_isspace c && String.eqb r "" then EmptyString else String c r
  end.

(** [str.strip()]. *)
Definition strip (s : string) : string := rstrip (lstrip s).

(** [str.lower()] on one Latin-1 code point: A-Z and U+00C0-U+00DE except
    U+00D7 move up by 0x20; every other code point is unchanged. *)
Definition lower_char (x : ascii) : ascii :=
  let n := nat_of_ascii x in
  if ((65 <=? n) && (n <=? 90))%nat
     || ((192 <=? n) && (n <=? 222) && negb (n =? 215))%nat
  then ascii_of_nat (n + 32) else x.

(** [str.lower()]. *)
Fixpoint lower (s : string) : string :=
  match s with
  | EmptyString => EmptyString
  | String x rest => String (lower_char x) (lower rest)
  end.

(** The first (possibly empty) word of [s] and the words after it. *)
Fixpoint split_go (s : string) : string * list string :=
  match s with
  | EmptyString => (EmptyString, [])
  | String c rest =>
      let (w, ws) := split_go rest in
      if py_isspace c then (EmptyString, if String.eqb w "" then ws else w :: ws)
      else (String c w, ws)
  end.

(** [str.split()] without a separator: the maximal runs of non-whitespace. *)
Definition py_split (s : string) : list string :=
  let (w, ws) := split_go s in if String.eqb w "" then ws else w :: ws.

Fixpoint no_space (s : string) : bool :=
  match s with
  | EmptyString => true
  | String c rest => negb (py_isspace c) && no_space rest
  end.

Fixpoint all_space (s : string) : bool :=
  match s with
  | EmptyString => true
  | String c rest => py_isspace c && all_space rest
  end.

(** [env_bool(name, default)] (main.py, lines 22-26), [getenv] being
    [os.getenv]. *)
Definition env_bool (getenv : string -> option string) (name : string) (default : bool) : bool :=
  match getenv name with
  | None => default
  | Some v => existsb (String.eqb (lower (strip v))) ["1"; "true"; "yes"; "y"; "on"]
  end.

Definition ListIndexError : exn := mkExn "IndexError" "list index out of range".
Definition AttributeError : exn := mkExn "AttributeError" "object has no attribute 'get'".

(** The four header parameters of the webhook ([None]: header absent). *)
Record Headers := mkHeaders {
  authorization : option string;
  poe_access_key : option string;
  x_poe_access_key : option string;
  x_access_key : option string }.

(** Python truthiness of a [str | None]. *)
Definition truthy (v : option string) : bool :=
  match v with Some s => negb (String.eqb s "") | None => false end.

(** [s.split(sep, 1)[1]]. *)
Definition split1_tail (sep s : string) : outcome string :=
  match String.index 0 sep s with
  | Some n => Ok (substring (n + String.length sep) (String.length s - (n + String.length sep)) s)
  | None => Raise ListIndexError
  end.

(** [_get_access_key_from_headers] (main.py, lines 47-59). *)
Definition get_access_key_from_headers (h : Headers) : outcome (option string) :=
  if truthy (poe_access_key h) then Ok (poe_access_key h)
  else if truthy (x_poe_access_key h) then Ok (x_poe_access_key h)
  else if truthy (x_access_key h) then Ok (x_access_key h)
  else match authorization h with
       | Some a =>
           if truthy (Some a) && String.prefix "Bearer " a then
             match split1_tail "Bearer " a with
             | Ok t => Ok (Some t)
             | Raise e => Raise e
             end
           else Ok None
       | None => Ok None
       end.

(** Every code point of [s] is below 128. *)
Fixpoint is_ascii (s : string) : bool :=
  match s with
  | EmptyString => true
  | String c rest => (nat_of_ascii c <? 128)%nat && is_ascii rest
  end.

Definition TypeError_nonascii : exn :=
  mkExn "TypeError" "comparing strings with non-ASCII characters is not supported".

(** [hmac.compare_digest] on two [str]: a TypeError unless both are ASCII,
    otherwise their equality. *)
Definition compare_digest (a b : string) : outcome bool :=
  if is_ascii a && is_ascii b then Ok (String.eqb a b) else Raise TypeError_nonascii.

(** [_consteq] (main.py, lines 43-45). *)
Definition consteq (a b : option string) : outcome bool :=
  match a, b with
  | Some x, Some y => compare_digest (strip x) (strip y)
  | _, _ => Ok false
  end.

(** The authentication step of [webhook] (main.py, lines 417-425), with
    [expected = os.getenv("KEY", "")]: [Ok true] lets the request through,
    [Ok false] is the 403 reply, and an exception escapes the handler. *)
Definition webhook_auth (expected : string) (h : Headers) : outcome bool :=
  match get_access_key_from_headers h with
  | Raise e => Raise e
  | Ok received => if String.eqb expected "" then Ok false else consteq (Some expected) received
  end.

(** A JSON value where the webhook reads it as text: a string, a falsy
    non-string value (null, false, 0, an empty list or object), or any other
    value. *)
Inductive JVal := JStr (s : string) | JFalsy | JTruthy.

(** An element of the [messages] list: an object with its [content] field,
    or another JSON value. *)
Inductive Msg := MDict (content : option JVal) | MNonDict.

(** The [messages] field: a list, or another JSON value, truthy or not. *)
Inductive MsgsVal := MList (ms : list Msg) | MOther (is_truthy : bool).

(** The request body: an object with its [messages] and [text] fields, or
    another JSON value. *)
Inductive Body := BDict (messages : option MsgsVal) (text : option JVal) | BOther.

(** [(v or "")] followed by [.strip()]: a truthy non-string has no [strip]. *)
Definition or_empty_text (v : option JVal) : outcome string :=
  match v with
  | None | Some JFalsy => Ok ""
  | Some (JStr s) => Ok s
  | Some JTruthy => Raise AttributeError
  end.

(** The text extraction of [webhook] (main.py, lines 429-437); the bare
    [except] turns every failure into "". *)
Definition extract_text (body : Body) : string :=
  let r := match body with
           | BOther => Raise AttributeError
           | BDict msgs txt =>
               match msgs with
               | Some (MList ((_ :: _) as ms)) =>
                   match last ms MNonDict with
                   | MDict c => or_empty_text c
                   | MNonDict => Raise AttributeError
                   end
               | Some (MOther true) => Raise AttributeError
               | _ => or_empty_text txt
               end
           end in
  match r with Ok s => lower (strip s) | Raise _ => "" end.

(** What the webhook does with an authenticated request.  [ACloseOne w]
    closes the symbol [w.upper()], [w] being the second word of the text. *)
Inductive Action :=
| AForbidden | AAccount | APositions | AStart | AStop | AStatus
| ACloseOne (word : string) | ACloseAll | AScan.

(** The intent tests of [webhook] (main.py, lines 439-499). *)
Definition dispatch (text : string) : outcome Action :=
  if existsb (String.eqb text) ["account"; "acc"] then Ok AAccount
  else if existsb (String.eqb text) ["positions"; "pos"] then Ok APositions
  else if existsb (String.eqb text) ["start"; "run"] then Ok AStart
  else if existsb (String.eqb text) ["stop"; "pause"] then Ok AStop
  else if existsb (String.eqb text) ["status"; "config"] then Ok AStatus
  else if String.prefix "close" text then
    match py_split text with
    | [_] => Ok ACloseAll
    | _ :: p :: _ => (* [sym = parts[1].upper()], empty exactly when [p] is *)
                     if String.eqb p "" then Ok ACloseAll else Ok (ACloseOne p)
    | [] => Raise ListIndexError
    end
  else Ok AScan.

Definition webhook_action (expected : string) (h : Headers) (body : Body) : outcome Action :=
  match webhook_auth expected h with
  | Raise e => Raise e
  | Ok false => Ok AForbidden
  | Ok true => dispatch (extract_text body)
  end.

Definition BrokerName_eqb (a b : BrokerName) : bool :=
  match a, b with Alpaca, Alpaca | Oanda, Oanda => true | _, _ => false end.

(** The loops of the [account] and [positions] intents (main.py, lines
    440-465): one query per broker name, in the order the symbols first
    route to it, an exception becoming the entry [{"error": str(e)}]. *)
Fixpoint each_broker {A} (call : BrokerName -> M A) (seen : list BrokerName)
  (syms : list string) : M (list (BrokerName * outcome A)) :=
  match syms with
  | [] => ret []
  | s :: rest =>
      match broker_for s with
      | Some b =>
          if existsb (BrokerName_eqb b) seen then each_broker call seen rest else
          let* r := try_except (let* x := call b in ret (Ok x)) (fun e => ret (Raise e)) in
          let* out := each_broker call (b :: seen) rest in
          ret ((b, r) :: out)
      | None => each_broker call seen rest
      end
  end.

Definition webhook_account (env : Env) (eng : Engine) : M (list (BrokerName * outcome Account)) :=
  each_broker (account env) [] (symbols eng).

Definition webhook_positions (env : Env) (eng : Engine) : M (list (BrokerName * outcome PosJson)) :=
  each_broker (positions env) [] (symbols eng).

(** The fallback scan of [webhook] (main.py, lines 500-505). *)
Fixpoint scan_symbols (env : Env) (eng : Engine) (syms : list string) : M (list TradeResult) :=
  match syms with
  | [] => ret []
  | s :: rest =>
      let* r := try_except (trade_once env eng s) (fun e => ret (RError s (exn_str e))) in
      let* rs := scan_symbols env eng rest in
      ret (r :: rs)
  end.

Definition webhook_scan (env : Env) (eng : Engine) : M (list TradeResult) :=
  scan_symbols env eng (symbols eng).

Definition set_enable_auto (eng : Engine) (b : bool) : Engine :=
  mkEngine (symbols eng) (timeframe eng) (risk_percent eng) (max_positions eng) b.

(** ** The OANDA adapter *)

(** [int(x)] on a float: truncation toward zero; NaN raises. *)
Definition py_int (x : F) : outcome Z :=
  match x with
  | Some q => Ok (Z.quot (Qnum q) (Zpos (Qden q)))
  | None => Raise (mkExn "ValueError" "cannot convert float NaN to integer")
  end.

(** [str(n)] on an int. *)
Definition py_str_int (z : Z) : string := DecimalString.NilZero.string_of_int (Z.to_int z).

(** The [units] field of [OandaBroker.market_order] (main.py, line 216). *)
Definition oanda_units (side : string) (qty : F) : outcome string :=
  match py_int (if String.eqb (lower side) "buy" then qty else fneg qty) with
  | Ok n => Ok (py_str_int n)
  | Raise e => Raise e
  end.

Record OandaConfig := mkOandaConfig { oanda_base : string; oanda_account_id : string }.

(** An entry of [OandaBroker.positions()]: the [instrument], [long.units]
    and [short.units] fields read with [.get] ([None] when absent). *)
Record OandaPos := mkOandaPos {
  op_instrument : option string; op_long_units : option string; op_short_units : option string }.

Inductive HCall := HGet (url : string) | HPut (url : string).

(** The OANDA HTTP endpoint, answering as a function of the requests made
    before (newest first): a GET of the open positions gives a status and
    the [positions] list of the JSON body ([None]: the body is not JSON);
    a PUT gives a status and the body text.  [Raise] is a network failure. *)
Record Http := mkHttp {
  http_get : list HCall -> string -> outcome (Z * option (list OandaPos));
  http_put : list HCall -> string -> outcome (Z * string) }.

Definition HM (A : Type) : Type := list HCall -> outcome A * list HCall.

Definition hret {A} (x : A) : HM A := fun log => (Ok x, log).

Definition hbind {A B} (m : HM A) (k : A -> HM B) : HM B :=
  fun log => match m log with
             | (Ok x, log1) => k x log1
             | (Raise e, log1) => (Raise e, log1)
             end.

Definition HTTPError : exn := mkExn "HTTPError" "Client or Server Error".
Definition JSONDecodeError : exn := mkExn "JSONDecodeError" "Expecting value".

Definition oanda_url (cfg : OandaConfig) (path : string) : string :=
  oanda_base cfg ++ "/v3/accounts/" ++ oanda_account_id cfg ++ path.

(** [OandaBroker.positions] (main.py, lines 173-185). *)
Definition oanda_positions (http : Http) (cfg : OandaConfig) : HM (list OandaPos) :=
  fun log =>
    let url := oanda_url cfg "/openPositions" in
    (match http_get http log url with
     | Raise e => Raise e
     | Ok (st, js) =>
         if (st =? 404)%Z then Ok []
         else if ((400 <=? st) && (st <? 600))%Z then Raise HTTPError
         else match js with Some ps => Ok ps | None => Raise JSONDecodeError end
     end, HGet url :: log).

(** [str(x)] inside an f-string for a [str | None]. *)
Definition py_str_opt (o : option string) : string :=
  match o with Some s => s | None => "None" end.

Definition close_url (cfg : OandaConfig) (sym : string) : string :=
  oanda_url cfg ("/positions/" ++ sym ++ "/close").

Definition oanda_put_close (http : Http) (cfg : OandaConfig) (sym : string) : HM (Z * string) :=
  fun log => (http_put http log (close_url cfg sym), HPut (close_url cfg sym) :: log).

Inductive CloseReply :=
| CloseStatus (status : Z) (body : string)           (* {"status": ..., "body": ...} *)
| PositionsClosed (out : list (option string * Z)).  (* {"positions_closed": [...]} *)

Fixpoint close_each (http : Http) (cfg : OandaConfig) (ps : list OandaPos)
  : HM (list (option string * Z)) :=
  match ps with
  | [] => hret []
  | p :: rest =>
      hbind (oanda_put_close http cfg (py_str_opt (op_instrument p))) (fun r =>
      hbind (close_each http cfg rest) (fun out =>
      hret ((op_instrument p, fst r) :: out)))
  end.

(** [OandaBroker.close_all] (main.py, lines 229-241). *)
Definition oanda_close_all (http : Http) (cfg : OandaConfig) (symbol : option string) : HM CloseReply :=
  if truthy symbol then
    hbind (oanda_put_close http cfg (py_str_opt symbol)) (fun r => hret (CloseStatus (fst r) (snd r)))
  else
    hbind (oanda_positions http cfg) (fun pos =>
    hbind (close_each http cfg pos) (fun out =>
    hret (PositionsClosed out))).

(** The broker of [env_long_held] serving [candles24] instead. *)
Definition env_flat : Env :=
  mkEnv (env_account env_long_held) (env_positions env_long_held)
        (fun _ _ _ _ _ => Ok candles24) (env_order env_long_held).

(** Headers carrying only a Poe-Access-Key. *)
Definition hdr_poe (k : string) : Headers := mkHeaders None (Some k) None None.

(** An OANDA account with two open positions whose close requests all succeed. *)
Definition http_two_positions : Http :=
  mkHttp (fun _ _ => Ok (200%Z, Some [mkOandaPos (Some "EUR_USD") (Some "100") (Some "0");
                                     mkOandaPos (Some "XAU_USD") (Some "0") (Some "-2")]))
         (fun _ _ => Ok (200%Z, "{}")).

(** ** Helper lemmas *)

Lemma trade_once_symbol env eng sym log r log' :
  trade_once env eng sym log = (Ok r, log') -> result_symbol r = sym.
Proof.
  unfold trade_once.
  destruct (broker_for sym) as [br|]; [|intros H; inversion H; reflexivity].
  unfold bind, fetch_candles, lift, ret, try_except, positions, market_order.
  destruct (env_candles env br log sym (timeframe eng) 300) as [df|e]; [|discriminate].
  destruct df as [|c cs]; [intros H; inversion H; reflexivity|].
  destruct (generate_signal _) as [sig|e1]; [|discriminate].
  destruct (String.eqb sig ""); [intros H; inversion H; reflexivity|].
  destruct (env_positions env br _) as [p|e2];
    [destruct (match p with PList _ => _ | PObject => false end)|];
    try (intros H; inversion H; reflexivity);
    destruct (size_from_risk env eng br sym _ _) as [[q|e3] log2];
    try discriminate; destruct (env_order env br _ _ _ _);
    intros H; inversion H; reflexivity.
Qed.

Lemma tick_symbols_cons env eng sym rest log :
  tick_symbols env eng (sym :: rest) log =
  let (o, log1) := trade_once env eng sym log in
  let (o2, log2) := tick_symbols env eng rest log1 in
  (match o2 with Ok rs => Ok (caught_result sym o :: rs) | Raise e => Raise e end, log2).
Proof.
  simpl. unfold bind, try_except, ret.
  destruct (trade_once env eng sym log) as [[r|e] log1];
  destruct (tick_symbols env eng rest log1) as [[rs|e2] log2]; reflexivity.
Qed.

Lemma tick_symbols_total env eng syms log :
  exists rs log', tick_symbols env eng syms log = (Ok rs, log')
             /\ map result_symbol rs = syms.
Proof.
  revert log; induction syms as [|sym rest IH]; intros log.
  - exists [], log; split; reflexivity.
  - rewrite tick_symbols_cons.
    destruct (trade_once env eng sym log) as [o log1] eqn:Ht.
    destruct (IH log1) as (rs & log2 & Hr & Hs). rewrite Hr.
    exists (caught_result sym o :: rs), log2. split; [reflexivity|].
    simpl. rewrite Hs. f_equal.
    destruct o as [r|e]; simpl; [|reflexivity].
    exact (trade_once_symbol _ _ _ _ _ _ Ht).
Qed.

Lemma tick_symbols_app env eng pre l log rs1 log1 rs2 log2 :
  tick_symbols env eng pre log = (Ok rs1, log1) ->
  tick_symbols env eng l log1 = (Ok rs2, log2) ->
  tick_symbols env eng (pre ++ l) log = (Ok (rs1 ++ rs2), log2).
Proof.
  revert log rs1; induction pre as [|sym pre IH]; intros log rs1 H1 H2.
  - simpl in H1. unfold ret in H1. injection H1 as <- <-. exact H2.
  - rewrite <- app_comm_cons, tick_symbols_cons. rewrite tick_symbols_cons in H1.
    destruct (trade_once env eng sym log) as [o log0].
    destruct (tick_symbols env eng pre log0) as [[rs0|e] log0'] eqn:E; [|discriminate].
    injection H1 as <- ->. rewrite (IH log0 rs0 E H2). reflexivity.
Qed.

Lemma broker_for_alpaca_first s :
  instrument_ok Alpaca s = true -> broker_for s = Some Alpaca.
Proof. unfold broker_for; intros ->; reflexivity. Qed.

Lemma Qlt_bool_iff x y : Qlt_bool x y = true <-> x < y.
Proof.
  unfold Qlt_bool. rewrite negb_true_iff.
  split; intro H.
  - apply Qnot_le_lt. intro H'. apply Qle_bool_iff in H'. congruence.
  - destruct (Qle_bool y x) eqn:E; [|reflexivity].
    apply Qle_bool_iff in E. exfalso. apply (Qlt_not_le _ _ H E).
Qed.

Lemma fdiv_py_100 (rp : F) : fdiv_py rp (Some 100) = Ok (match rp with Some x => Some (x / 100) | None => None end).
Proof. reflexivity. Qed.

(** The divisor [max(atr, 1e-8)] is NaN or at least 1e-8. *)
Lemma atr_floor (a : F) :
  py_max a (Some (1 # 100000000)) = None \/
  exists d, py_max a (Some (1 # 100000000)) = Some d /\ 1 # 100000000 <= d.
Proof.
  destruct a as [x|]; [right|left; reflexivity].
  unfold py_max, fgt, flt.
  destruct (Qlt_bool x (1 # 100000000)) eqn:E.
  - exists (1 # 100000000); split; [reflexivity | apply Qle_refl].
  - exists x; split; [reflexivity|].
    apply Qnot_lt_le. intro H. apply Qlt_bool_iff in H. congruence.
Qed.

Lemma raw_qty_ok eq rp a : exists q, raw_qty eq rp a = Ok q.
Proof.
  unfold raw_qty. rewrite fdiv_py_100.
  destruct (atr_floor a) as [Hn | (d & Hd & Hle)].
  - rewrite Hn. eexists; reflexivity.
  - rewrite Hd. unfold fdiv_py.
    destruct (Qeq_bool d 0) eqn:E.
    + apply Qeq_bool_iff in E. exfalso.
      destruct d as [dn dd]. unfold Qeq, Qle in *; simpl in *. lia.
    + eexists; reflexivity.
Qed.

(** [max(1.0, x)] is a number at least 1 whatever [x] is. *)
Lemma py_max_one_ge (x : F) : exists q, py_max (Some 1) x = Some q /\ 1 <= q.
Proof.
  unfold py_max, fgt, flt.
  destruct x as [y|]; [|exists 1; split; [reflexivity | apply Qle_refl]].
  destruct (Qlt_bool 1 y) eqn:E.
  - exists y; split; [reflexivity|]. apply Qlt_le_weak, Qlt_bool_iff, E.
  - exists 1; split; [reflexivity | apply Qle_refl].
Qed.

Lemma py_max_one_le (x : Q) : x <= 1 -> py_max (Some 1) (Some x) = Some 1.
Proof.
  intros H. unfold py_max, fgt, flt.
  destruct (Qlt_bool 1 x) eqn:E; [|reflexivity].
  apply Qlt_bool_iff in E. exfalso. apply (Qlt_not_le _ _ E H).
Qed.

Lemma py_max_one_ge_arg (z : Q) : exists q, py_max (Some 1) (Some z) = Some q /\ z <= q.
Proof.
  unfold py_max, fgt, flt.
  destruct (Qlt_bool 1 z) eqn:E.
  - exists z; split; [reflexivity | apply Qle_refl].
  - exists 1; split; [reflexivity|].
    apply Qnot_lt_le. intro H. apply Qlt_bool_iff in H. congruence.
Qed.

Lemma size_core_ge1 eq rp a : exists q, size_core eq rp a = Ok (Some q) /\ 1 <= q.
Proof.
  unfold size_core. destruct (raw_qty_ok eq rp a) as [r ->].
  destruct (py_max_one_ge (py_round6 r)) as (q & -> & Hq). eauto.
Qed.

Lemma round_half_even_bounds n d :
  (0 < d)%Z -> (n / d <= round_half_even n d <= n / d + 1)%Z.
Proof.
  intros Hd. unfold round_half_even.
  destruct (2 * (n - n / d * d) <? d)%Z; [lia|].
  destruct (d <? 2 * (n - n / d * d))%Z; [lia|].
  destruct (Z.even (n / d)); lia.
Qed.

Lemma round_half_even_nonpos n d :
  (0 < d)%Z -> (n <= 0)%Z -> (round_half_even n d <= 0)%Z.
Proof.
  intros Hd Hn.
  pose proof (round_half_even_bounds n d Hd).
  pose proof (Z.mul_div_le n d Hd).
  destruct (Z.eq_dec n 0) as [->|E].
  - unfold round_half_even. rewrite Z.div_0_l by lia.
    replace (0 - 0 * d)%Z with 0%Z by lia.
    destruct (2 * 0 <? d)%Z eqn:E2; [lia|]. apply Z.ltb_ge in E2; lia.
  - assert (n / d < 0)%Z by nia. lia.
Qed.

Lemma py_round6_nonpos (q : Q) : q <= 0 -> exists z, py_round6 (Some q) = Some z /\ z <= 0.
Proof.
  destruct q as [a b]. intros Hq.
  unfold Qle in Hq; simpl in Hq.
  unfold py_round6; simpl.
  eexists; split; [reflexivity|].
  pose proof (round_half_even_nonpos (a * 1000000) (Zpos (b * 1)) eq_refl ltac:(lia)).
  unfold Qle; simpl. lia.
Qed.

Lemma py_round6_lower (q : Q) : exists z, py_round6 (Some q) = Some z /\ q - 1 <= z.
Proof.
  destruct q as [a b].
  unfold py_round6; simpl.
  eexists; split; [reflexivity|].
  set (n := (a * 1000000)%Z). set (d := Zpos (b * 1)).
  assert (Hd : (0 < d)%Z) by reflexivity.
  pose proof (Z.mod_pos_bound n d Hd) as Hm.
  pose proof (Z.div_mod n d ltac:(lia)) as Hdm.
  pose proof (round_half_even_bounds n d Hd) as Hb.
  set (z := round_half_even n d) in *.
  unfold Qle, Qminus, Qplus, Qopp; simpl.
  fold d. unfold d, n in *. nia.
Qed.

Lemma equity_ok env b log : exists x, equity env b log = (Ok x, CAccount b :: log).
Proof.
  unfold equity, try_except, bind, account, lift, ret.
  destruct (env_account env b log) as [acc|e]; [|eauto].
  destruct (py_float _); eauto.
Qed.

Lemma size_from_risk_ok env eng b sym (df : list Row) log :
  df <> [] ->
  exists q, size_from_risk env eng b sym df log = (Ok (Some q), CAccount b :: log) /\ 1 <= q.
Proof.
  intros Hne. unfold size_from_risk, bind.
  destruct (equity_ok env b log) as (x & ->).
  unfold lift, iloc_neg.
  destruct (rev df) as [|last rest] eqn:Hr.
  - exfalso. apply Hne. apply (f_equal (@List.rev Row)) in Hr.
    rewrite List.rev_involutive in Hr. exact Hr.
  - simpl. destruct (size_core_ge1 x (risk_percent eng) (atr last)) as (q & -> & Hq).
    eauto.
Qed.

Lemma iloc_last2 {A} (pre : list A) (prev last : A) :
  iloc_neg 1 (pre ++ [prev; last]) = Ok last /\ iloc_neg 2 (pre ++ [prev; last]) = Ok prev.
Proof.
  unfold iloc_neg. rewrite rev_app_distr. split; reflexivity.
Qed.

Lemma split_last2 {A} (l : list A) :
  (2 <= List.length l)%nat -> exists pre prev last, l = pre ++ [prev; last].
Proof.
  intros H. destruct (rev l) as [|a [|b r]] eqn:Hr.
  - apply (f_equal (@List.length A)) in Hr. rewrite List.length_rev in Hr. simpl in Hr. lia.
  - apply (f_equal (@List.length A)) in Hr. rewrite List.length_rev in Hr. simpl in Hr. lia.
  - exists (rev r), b, a.
    apply (f_equal (@List.rev A)) in Hr. rewrite List.rev_involutive in Hr.
    rewrite Hr. simpl. rewrite <- app_assoc. reflexivity.
Qed.

Lemma flt_fgt_excl (a b : F) : fgt a b = true -> flt a b = false.
Proof.
  unfold fgt, flt. destruct a as [x|], b as [y|]; try reflexivity.
  intros H. apply Qlt_bool_iff in H.
  destruct (Qlt_bool x y) eqn:E; [|reflexivity].
  apply Qlt_bool_iff in E. exfalso. apply (Qlt_irrefl x). apply Qlt_trans with y; assumption.
Qed.

Lemma build_rows_length cs f s r a : (List.length (build_rows cs f s r a) <= List.length cs)%nat.
Proof.
  revert f s r a; induction cs as [|c cs IH]; intros [|x f] [|y s] [|z r] [|w a]; simpl; try lia.
  specialize (IH f s r a). lia.
Qed.

Lemma compute_indicators_length cs : (List.length (compute_indicators cs) <= List.length cs)%nat.
Proof. apply build_rows_length. Qed.

(** *** RSI helper lemmas *)


Lemma diff_some x0 xr :
  diff (map Some (x0 :: xr)) = None :: map Some (deltas x0 xr).
Proof.
  unfold diff, shift. simpl. f_equal.
  revert x0; induction xr as [|y ys IH]; intros x0; [reflexivity|].
  change (removelast (Some x0 :: map Some (y :: ys)))
    with (Some x0 :: removelast (map Some (y :: ys))).
  simpl. f_equal. exact (IH y).
Qed.

Lemma closes_map cs : closes cs = map Some (map close cs).
Proof. unfold closes. rewrite map_map. reflexivity. Qed.

Lemma ewm_go_length alpha w o xs : List.length (ewm_go alpha w o xs) = List.length xs.
Proof.
  revert w o; induction xs as [|x xs IH]; intros w o; [reflexivity|].
  simpl. destruct w as [w|]; [destruct x|]; simpl; rewrite IH; reflexivity.
Qed.

Lemma ewm_length alpha xs : List.length (ewm alpha xs) = List.length xs.
Proof. destruct xs; simpl; [reflexivity|]. rewrite ewm_go_length. reflexivity. Qed.

Lemma zipF_cons f x xs y ys : zipF f (x :: xs) (y :: ys) = f x y :: zipF f xs ys.
Proof. reflexivity. Qed.

Lemma last_zipF f xs ys d1 d2 d :
  List.length xs = List.length ys -> xs <> [] ->
  last (zipF f xs ys) d = f (last xs d1) (last ys d2).
Proof.
  revert ys; induction xs as [|x xs IH]; intros [|y ys] Hl Hne; try discriminate; [congruence|].
  destruct xs as [|x' xs'].
  - destruct ys; [reflexivity | discriminate].
  - destruct ys as [|y' ys']; [discriminate|].
    rewrite zipF_cons, zipF_cons.
    change (last (f x y :: f x' y' :: zipF f xs' ys') d)
      with (last (f x' y' :: zipF f xs' ys') d).
    rewrite <- zipF_cons.
    rewrite IH; [reflexivity | simpl in *; congruence | discriminate].
Qed.

Lemma ewm_step_zero (w v : Q) :
  0 <= w -> 0 <= v ->
  let w' := if Qeq_bool w v then w
            else (1 * (1 - (1 # 14)) * w + (1 # 14) * v) / (1 * (1 - (1 # 14)) + (1 # 14)) in
  0 <= w' /\ (w' == 0 <-> w == 0 /\ v == 0).
Proof.
  intros Hw Hv w'. unfold w'.
  destruct (Qeq_bool w v) eqn:E.
  - apply Qeq_bool_iff in E. split; [exact Hw|].
    split; [intros H; split; [exact H | rewrite <- E; exact H] | tauto].
  - assert (Hx : (1 * (1 - (1 # 14)) * w + (1 # 14) * v) / (1 * (1 - (1 # 14)) + (1 # 14))
                 == (13 # 14) * w + (1 # 14) * v) by field.
    rewrite Hx. split; [lra|]. split; [intros H; split; lra | intros [H1 H2]; lra].
Qed.

Lemma ewm_go_last_zero w vs :
  0 <= w -> Forall (Qle 0) vs ->
  exists y, last (Some w :: ewm_go (1 # 14) (Some w) 1 (map Some vs)) None = Some y /\
            0 <= y /\ (y == 0 <-> w == 0 /\ Forall (fun v => v == 0) vs).
Proof.
  revert w; induction vs as [|v vs IH]; intros w Hw Hvs.
  - exists w. split; [reflexivity|]. split; [exact Hw|].
    split; [intros H; split; [exact H | constructor] | intros [H _]; exact H].
  - inversion Hvs as [|? ? Hv Hvs']; subst.
    destruct (ewm_step_zero w v Hw Hv) as [Hw' Hiff].
    simpl map. simpl ewm_go.
    set (w' := if Qeq_bool w v then w else _) in *.
    destruct (IH w' Hw' Hvs') as (y & Hy & Hy0 & Hyi).
    exists y. split.
    + change (last (Some w :: Some w' :: ewm_go (1 # 14) (Some w') 1 (map Some vs)) None)
        with (last (Some w' :: ewm_go (1 # 14) (Some w') 1 (map Some vs)) None).
      exact Hy.
    + split; [exact Hy0|]. rewrite Hyi, Hiff.
      split; [intros [[H1 H2] H3]; split; [exact H1 | constructor; assumption]|].
      intros [H1 H2]. inversion H2; subst. tauto.
Qed.

Lemma losses_zero_iff x0 xr :
  Forall (fun v => v == 0) (map (fun d => - Qmin d 0) (deltas x0 xr)) <-> nondecreasing (x0 :: xr).
Proof.
  revert x0; induction xr as [|y ys IH]; intros x0; simpl.
  - split; intros; [exact I | constructor].
  - rewrite Forall_cons_iff. rewrite IH.
    assert (E : - Qmin (y - x0) 0 == 0 <-> x0 <= y).
    { destruct (Qlt_le_dec (y - x0) 0) as [Hl|Hl].
      - rewrite Q.min_l by (apply Qlt_le_weak; exact Hl). split; intros; lra.
      - rewrite Q.min_r by exact Hl. split; intros; lra. }
    rewrite E. destruct ys; simpl; tauto.
Qed.

Lemma ewm_none_cons alpha v vs :
  ewm alpha (None :: map Some (v :: vs)) = None :: Some v :: ewm_go alpha (Some v) 1 (map Some vs).
Proof. reflexivity. Qed.

Lemma rsi_of_nan g l : rsi_of (Some g) (Some l) = None <-> l == 0.
Proof.
  unfold rsi_of, replace0_nan.
  destruct (Qeq_bool l 0) eqn:E.
  - apply Qeq_bool_iff in E. split; [intros; exact E | reflexivity].
  - split; [discriminate|]. intros H. apply Qeq_bool_iff in H. congruence.
Qed.

Lemma map_clip_lower0 l : map clip_lower0 (map Some l) = map Some (map (fun d => Qmax d 0) l).
Proof. rewrite !map_map. reflexivity. Qed.

Lemma map_loss l :
  map (fun d => fneg (clip_upper0 d)) (map Some l) = map Some (map (fun d => - Qmin d 0) l).
Proof. rewrite !map_map. reflexivity. Qed.

Lemma Forall_map_nonneg (f : Q -> Q) l : (forall x, 0 <= f x) -> Forall (Qle 0) (map f l).
Proof. intros H. apply Forall_forall. intros x Hx. apply in_map_iff in Hx as (y & <- & _). apply H. Qed.

(** ** Claims *)

(** C5 (counterexample): "BTC/USD_X" is accepted by both membership tests,
    so the routing result depends on which test is consulted first. *)
Lemma route_overlap_counterexample :
  instrument_ok Alpaca "BTC/USD_X" = true /\ instrument_ok Oanda "BTC/USD_X" = true /\
  broker_for "BTC/USD_X" = Some Alpaca /\ broker_for_oanda_first "BTC/USD_X" = Some Oanda.
Proof. repeat split; reflexivity. Qed.

(** C5 (amended): routing is a priority test.  Every symbol the Alpaca test
    accepts is routed to Alpaca, also when the OANDA test accepts it too (and
    then consulting OANDA first would give OANDA); every symbol not accepted
    by both tests is routed to the same broker in either consultation order. *)
Theorem route_order_independent_off_overlap (s : string) :
  (instrument_ok Alpaca s = true -> broker_for s = Some Alpaca) /\
  (instrument_ok Alpaca s = true -> instrument_ok Oanda s = true ->
     broker_for s = Some Alpaca /\ broker_for_oanda_first s = Some Oanda) /\
  (instrument_ok Alpaca s = false \/ instrument_ok Oanda s = false ->
     broker_for s = broker_for_oanda_first s).
Proof.
  unfold broker_for, broker_for_oanda_first.
  split; [exact (broker_for_alpaca_first s)|split].
  - intros Ha Ho. rewrite Ha, Ho. split; reflexivity.
  - intros [H|H]; rewrite H; destruct (instrument_ok _ s); reflexivity.
Qed.

Lemma route_order_independent_off_overlap_witness :
  broker_for "BTC/USD_X" = Some Alpaca /\ broker_for_oanda_first "BTC/USD_X" = Some Oanda /\
  broker_for "EUR_USD" = broker_for_oanda_first "EUR_USD".
Proof.
  destruct (proj1 (proj2 (route_order_independent_off_overlap "BTC/USD_X")) eq_refl eq_refl)
    as [H1 H2].
  split; [exact H1 | split; [exact H2|]].
  exact (proj2 (proj2 (route_order_independent_off_overlap "EUR_USD")) (or_introl eq_refl)).
Defined.

(** C8: the membership tests on "BTC/USD" and "EUR_USD"; a symbol claimed by
    neither adapter (such as "XYZ") is routed to no broker, its per-symbol
    step returns the error result without any broker call, and the tick goes
    on with the remaining symbols: wherever the symbol stands in the list,
    the tick yields one result per symbol, the error result at its place. *)
Theorem instrument_ok_scenarios (s : string)
  (Ha : instrument_ok Alpaca s = false) (Ho : instrument_ok Oanda s = false) :
  instrument_ok Alpaca "BTC/USD" = true /\ instrument_ok Oanda "BTC/USD" = false /\
  instrument_ok Oanda "EUR_USD" = true /\ instrument_ok Alpaca "EUR_USD" = false /\
  broker_for s = None /\
  (forall env eng log,
     trade_once env eng s log = (Ok (RError s "No broker supports this symbol"), log)) /\
  (forall env eng rest log,
     tick_symbols env eng (s :: rest) log =
     let (o, log2) := tick_symbols env eng rest log in
     (match o with
      | Ok rs => Ok (RError s "No broker supports this symbol" :: rs)
      | Raise e => Raise e
      end, log2)) /\
  (forall env eng pre rest log,
     exists rs log', tick_symbols env eng (pre ++ s :: rest) log = (Ok rs, log') /\
       map result_symbol rs = pre ++ s :: rest /\
       nth_error rs (List.length pre) = Some (RError s "No broker supports this symbol")).
Proof.
  assert (Hb : broker_for s = None) by (unfold broker_for; rewrite Ha, Ho; reflexivity).
  assert (Ht : forall env eng log,
             trade_once env eng s log = (Ok (RError s "No broker supports this symbol"), log))
    by (intros env eng log; unfold trade_once; rewrite Hb; reflexivity).
  assert (Hc : forall env eng rest log,
     tick_symbols env eng (s :: rest) log =
     let (o, log2) := tick_symbols env eng rest log in
     (match o with
      | Ok rs => Ok (RError s "No broker supports this symbol" :: rs)
      | Raise e => Raise e
      end, log2)).
  { intros env eng rest log. rewrite tick_symbols_cons, Ht. reflexivity. }
  split; [reflexivity|]. split; [reflexivity|]. split; [reflexivity|]. split; [reflexivity|].
  split; [exact Hb|]. split; [exact Ht|]. split; [exact Hc|].
  intros env eng pre rest log.
  destruct (tick_symbols_total env eng pre log) as (rs1 & log1 & H1 & Hs1).
  destruct (tick_symbols_total env eng rest log1) as (rs3 & log3 & H3 & Hs3).
  assert (H2 : tick_symbols env eng (s :: rest) log1 =
               (Ok (RError s "No broker supports this symbol" :: rs3), log3))
    by (rewrite Hc, H3; reflexivity).
  exists (rs1 ++ RError s "No broker supports this symbol" :: rs3), log3.
  split; [exact (tick_symbols_app env eng pre (s :: rest) log rs1 log1 _ log3 H1 H2)|].
  split; [rewrite map_app; simpl; rewrite Hs1, Hs3; reflexivity|].
  assert (Hl : List.length rs1 = List.length pre)
    by (rewrite <- Hs1, length_map; reflexivity).
  rewrite nth_error_app2 by lia. rewrite Hl, Nat.sub_diag. reflexivity.
Qed.

Lemma instrument_ok_scenarios_witness :
  instrument_ok Alpaca "XYZ" = false /\ instrument_ok Oanda "XYZ" = false /\
  broker_for "XYZ" = None.
Proof.
  assert (Ha : instrument_ok Alpaca "XYZ" = false) by reflexivity.
  assert (Ho : instrument_ok Oanda "XYZ" = false) by reflexivity.
  split; [exact Ha | split; [exact Ho|]].
  exact (proj1 (proj2 (proj2 (proj2 (proj2 (instrument_ok_scenarios "XYZ" Ha Ho)))))).
Defined.

(** C9: within a tick, an exception raised for one symbol becomes the error
    result [{"symbol": sym, "error": str(e)}], the remaining symbols are
    then processed from the state the failure left, and the tick itself
    never raises: it yields one result per configured symbol, in order. *)
Theorem tick_isolates_symbol_failures :
  (forall env eng sym rest log,
     tick_symbols env eng (sym :: rest) log =
     let (o, log1) := trade_once env eng sym log in
     let (o2, log2) := tick_symbols env eng rest log1 in
     (match o2 with Ok rs => Ok (caught_result sym o :: rs) | Raise e => Raise e end, log2)) /\
  (forall env eng syms log,
     exists rs log', tick_symbols env eng syms log = (Ok rs, log')
                /\ map result_symbol rs = syms).
Proof.
  split; [exact tick_symbols_cons | exact tick_symbols_total].
Qed.

(** C1 (counterexample): with zero equity, or negative equity, the sizing
    returns 1.0 instead of failing; with a large equity it returns a large
    quantity, with no cap applied. *)
Lemma size_from_risk_counterexample :
  fst (size_from_risk (env_with_account (Ok (mkAccount (Some (Num (Some 0))) None)))
         engine_default Alpaca "BTC/USD" (compute_indicators candles26) []) = Ok (Some 1) /\
  fst (size_from_risk (env_with_account (Ok (mkAccount (Some (Num (Some (-5000)))) None)))
         engine_default Alpaca "BTC/USD" (compute_indicators candles26) []) = Ok (Some 1) /\
  exists q,
    fst (size_from_risk (env_with_account (Ok (mkAccount (Some (Num (Some 1000000000))) None)))
           engine_default Alpaca "BTC/USD" (compute_indicators candles26) []) = Ok (Some q)
    /\ 100000 < q.
Proof.
  split; [vm_compute; reflexivity|].
  split; [vm_compute; reflexivity|].
  eexists. split; [vm_compute; reflexivity|]. vm_compute. reflexivity.
Qed.

(** C1 (amended): the sizing never fails and applies no cap: a computed
    quantity [equity * (risk_percent / 100) / max(atr, 1e-8)] that is <= 0
    or NaN gives 1.0, and the result exceeds any bound for a large enough
    equity. *)
Theorem size_core_floor_no_cap :
  (forall eq rp a, exists q, raw_qty eq rp a = Ok q /\ size_core eq rp a = Ok (py_max (Some 1) (py_round6 q))) /\
  (forall eq rp a q, raw_qty eq rp a = Ok (Some q) -> q <= 0 -> size_core eq rp a = Ok (Some 1)) /\
  (forall eq rp a, raw_qty eq rp a = Ok None -> size_core eq rp a = Ok (Some 1)) /\
  (forall bound : Q, exists eq q, size_core (Some eq) (Some (1 # 2)) (Some 1) = Ok (Some q) /\ bound < q).
Proof.
  split; [|split; [|split]].
  - intros eq rp a. destruct (raw_qty_ok eq rp a) as [q Hq].
    exists q. split; [exact Hq|]. unfold size_core. rewrite Hq. reflexivity.
  - intros eq rp a q Hq Hle. unfold size_core. rewrite Hq.
    destruct (py_round6_nonpos q Hle) as (z & -> & Hz).
    rewrite py_max_one_le; [reflexivity|].
    apply Qle_trans with 0; [exact Hz | discriminate].
  - intros eq rp a Hq. unfold size_core. rewrite Hq. reflexivity.
  - intros bound.
    exists (200 * (Qabs bound + 2)).
    set (x := 200 * (Qabs bound + 2) * ((1 # 2) / 100) / 1).
    destruct (py_round6_lower x) as (z & Hz & Hzx).
    destruct (py_max_one_ge_arg z) as (q & Hq & Hzq).
    exists q. split.
    + change (size_core (Some (200 * (Qabs bound + 2))) (Some (1 # 2)) (Some 1))
        with (Ok (py_max (Some 1) (py_round6 (Some x)))).
      rewrite Hz, Hq. reflexivity.
    + assert (Hx : Qabs bound + 2 == x) by (unfold x; field).
      assert (Hb : bound <= Qabs bound) by apply Qle_Qabs.
      apply Qlt_le_trans with z; [|exact Hzq].
      apply Qlt_le_trans with (x - 1); [|exact Hzx].
      rewrite <- Hx.
      apply Qle_lt_trans with (Qabs bound); [exact Hb|].
      apply Qlt_le_trans with (Qabs bound + 1).
      * rewrite <- (Qplus_0_r (Qabs bound)) at 1. apply Qplus_lt_r. reflexivity.
      * apply Qle_lteq. right. ring.
Qed.

(** C10: for any account reply (any equity, zero, negative or NaN, or a
    failed account query), any risk percent and any ATR of the last row,
    the sizing returns a number of at least 1.0 and raises nothing (in
    particular no ZeroDivisionError): the ATR divisor [max(atr, 1e-8)] is
    NaN or at least 1e-8. *)
Theorem size_from_risk_at_least_one env eng b sym (df : list Row) log (Hne : df <> []) :
  (exists q log', size_from_risk env eng b sym df log = (Ok (Some q), log') /\ 1 <= q) /\
  (forall a : Q, exists d, py_max (Some a) (Some (1 # 100000000)) = Some d /\ 1 # 100000000 <= d).
Proof.
  split.
  - destruct (size_from_risk_ok env eng b sym df log Hne) as (q & H & Hq). eauto.
  - intros a. destruct (atr_floor (Some a)) as [H|H]; [|exact H].
    unfold py_max, fgt, flt in H. destruct (Qlt_bool a _); discriminate.
Qed.

Lemma size_from_risk_at_least_one_witness :
  compute_indicators candles26 <> [] /\
  exists q log', size_from_risk env_long_held engine_default Alpaca "BTC/USD"
                   (compute_indicators candles26) [] = (Ok (Some q), log') /\ 1 <= q.
Proof.
  assert (H : compute_indicators candles26 <> []) by (vm_compute; discriminate).
  split; [exact H|].
  exact (proj1 (size_from_risk_at_least_one env_long_held engine_default Alpaca "BTC/USD"
                  (compute_indicators candles26) [] H)).
Defined.


(** C6 (counterexample): a 24-row frame, past the indicator warm-up of
    max(9, 21, 14, 14) + 1 = 22 candles, with every value defined, a bullish
    crossover on the last row and RSI below 70, yields no signal. *)
Lemma generate_signal_24_rows_counterexample :
  exists pre prev last,
    frame24 = pre ++ [prev; last] /\ List.length frame24 = 24%nat /\
    ema_fast prev <> None /\ ema_slow prev <> None /\ ema_fast last <> None /\
    ema_slow last <> None /\ rsi last <> None /\
    fle (ema_fast prev) (ema_slow prev) = true /\
    fgt (ema_fast last) (ema_slow last) = true /\
    flt (rsi last) (Some 70) = true /\
    generate_signal frame24 = Ok "".
Proof.
  exists (firstn 22 frame24), (nth 22 frame24 (mkRow (mkc 0 0 0 0 0) None None None None)),
    (nth 23 frame24 (mkRow (mkc 0 0 0 0 0) None None None None)).
  repeat match goal with |- _ /\ _ => split end;
    try (vm_compute; reflexivity); vm_compute; discriminate.
Qed.

(** C6 (amended): on a frame of at least 25 rows the generator returns
    "buy" exactly when prev_fast <= prev_slow, last_fast > last_slow and
    last_rsi < 70; "sell" exactly when prev_fast >= prev_slow, last_fast <
    last_slow and last_rsi > 30; and "" otherwise (a comparison with NaN is
    false).  Shorter frames always give "". *)
Theorem generate_signal_crossover pre prev last
  (Hlen : (23 <= List.length pre)%nat) :
  let bull := fle (ema_fast prev) (ema_slow prev) && fgt (ema_fast last) (ema_slow last)
              && flt (rsi last) (Some 70) in
  let bear := fge (ema_fast prev) (ema_slow prev) && flt (ema_fast last) (ema_slow last)
              && fgt (rsi last) (Some 30) in
  (generate_signal (pre ++ [prev; last]) = Ok "buy" <-> bull = true) /\
  (generate_signal (pre ++ [prev; last]) = Ok "sell" <-> bear = true) /\
  (generate_signal (pre ++ [prev; last]) = Ok "" <-> bull = false /\ bear = false) /\
  (forall df, (List.length df < 25)%nat -> generate_signal df = Ok "").
Proof.
  intros bull bear.
  assert (Hg : generate_signal (pre ++ [prev; last]) =
               if bull then Ok "buy" else if bear then Ok "sell" else Ok "").
  { unfold generate_signal.
    rewrite length_app. simpl List.length.
    replace (Nat.ltb (List.length pre + 2) 25) with false
      by (symmetry; apply Nat.ltb_ge; lia).
    destruct (iloc_last2 pre prev last) as [-> ->].
    unfold bull, bear. reflexivity. }
  assert (Hx : bull = true -> bear = false).
  { unfold bull, bear. intros H.
    apply andb_true_iff in H as [H _]. apply andb_true_iff in H as [_ H].
    rewrite (flt_fgt_excl _ _ H). rewrite andb_false_r. reflexivity. }
  rewrite Hg. split; [|split; [|split]].
  - destruct bull; [tauto|]. destruct bear; split; intro H; discriminate H.
  - destruct bull eqn:Eb; [rewrite (Hx eq_refl); split; intro H; discriminate H|].
    destruct bear; split; intro H; (reflexivity || discriminate H).
  - destruct bull eqn:Eb; [split; [intro H; discriminate H | intros [H _]; discriminate H]|].
    destruct bear; split; intro H; try discriminate H; try tauto.
    destruct H as [_ H]; discriminate H.
  - intros df H. unfold generate_signal.
    replace (Nat.ltb (List.length df) 25) with true by (symmetry; apply Nat.ltb_lt; lia).
    reflexivity.
Qed.

Lemma generate_signal_crossover_witness :
  (23 <= List.length (firstn 24 frame26))%nat /\
  generate_signal (firstn 24 frame26 ++ [nth 24 frame26 (mkRow (mkc 0 0 0 0 0) None None None None);
                                        nth 25 frame26 (mkRow (mkc 0 0 0 0 0) None None None None)])
    = Ok "buy".
Proof.
  assert (H : (23 <= List.length (firstn 24 frame26))%nat) by (vm_compute; lia).
  split; [exact H|].
  apply (proj2 (proj1 (generate_signal_crossover (firstn 24 frame26)
    (nth 24 frame26 (mkRow (mkc 0 0 0 0 0) None None None None))
    (nth 25 frame26 (mkRow (mkc 0 0 0 0 0) None None None None)) H))).
  vm_compute. reflexivity.
Defined.

(** C7: a candle series shorter than the warm-up window of
    max(9, 21, 14, 14) + 1 = 22 candles gives the signal "" and raises
    nothing; so does any frame in which one of the values the generator
    reads (EMA fast and slow of the last two rows, RSI of the last row) is
    NaN. *)
Theorem generate_signal_flat_when_undefined :
  (forall cs : list Candle, (List.length cs < 22)%nat ->
     generate_signal (compute_indicators cs) = Ok "") /\
  (forall pre prev last,
     ema_fast prev = None \/ ema_slow prev = None \/ ema_fast last = None \/
     ema_slow last = None \/ rsi last = None ->
     generate_signal (pre ++ [prev; last]) = Ok "").
Proof.
  split.
  - intros cs H. pose proof (compute_indicators_length cs).
    unfold generate_signal.
    replace (Nat.ltb (List.length (compute_indicators cs)) 25) with true
      by (symmetry; apply Nat.ltb_lt; lia).
    reflexivity.
  - intros pre prev last Hu. unfold generate_signal.
    destruct (Nat.ltb _ 25); [reflexivity|].
    destruct (iloc_last2 pre prev last) as [-> ->].
    unfold fle, fgt, fge, flt.
    destruct (ema_fast prev) as [a|], (ema_slow prev) as [b|],
      (ema_fast last) as [c|], (ema_slow last) as [d|], (rsi last) as [r|];
      destruct Hu as [H|[H|[H|[H|H]]]]; try discriminate H; simpl;
      repeat match goal with |- context [Qle_bool ?x ?y] => destruct (Qle_bool x y) end;
      repeat match goal with |- context [Qlt_bool ?x ?y] => destruct (Qlt_bool x y) end;
      reflexivity.
Qed.

Lemma generate_signal_flat_when_undefined_witness :
  (rsi (nth 29 (compute_indicators candles_rising) (mkRow (mkc 0 0 0 0 0) None None None None)) = None) /\
  generate_signal (firstn 28 (compute_indicators candles_rising) ++
    [nth 28 (compute_indicators candles_rising) (mkRow (mkc 0 0 0 0 0) None None None None);
     nth 29 (compute_indicators candles_rising) (mkRow (mkc 0 0 0 0 0) None None None None)]) = Ok "" /\
  generate_signal (compute_indicators (firstn 21 candles_rising)) = Ok "".
Proof.
  assert (H : rsi (nth 29 (compute_indicators candles_rising)
                     (mkRow (mkc 0 0 0 0 0) None None None None)) = None)
    by (vm_compute; reflexivity).
  split; [exact H|]. split.
  - apply (proj2 generate_signal_flat_when_undefined). right; right; right; right. exact H.
  - apply (proj1 generate_signal_flat_when_undefined). vm_compute. lia.
Defined.

(** C3 (counterexample): on [frame26] the signal is the bare string "buy",
    and the engine then sends a market order made of symbol, side and
    quantity only: no stop or take-profit price is computed. *)
Lemma signal_has_no_stop_counterexample :
  generate_signal frame26 = Ok "buy" /\
  exists q, snd (trade_once env_long_held engine_default "BTC/USD" []) =
            [COrder Alpaca "BTC/USD" "buy" q; CAccount Alpaca; CPositions Alpaca;
             CFetch Alpaca "BTC/USD" "1Min" 300].
Proof.
  split; [vm_compute; reflexivity|].
  eexists. vm_compute. reflexivity.
Qed.

(** C3 (amended): the generator never raises and returns only a direction
    string, "buy", "sell" or "". *)
Theorem generate_signal_direction_only (df : list Row) :
  exists s, generate_signal df = Ok s /\ (s = "buy" \/ s = "sell" \/ s = "").
Proof.
  destruct (Nat.ltb (List.length df) 25) eqn:E.
  - exists ""; split; [unfold generate_signal; rewrite E; reflexivity | tauto].
  - pose proof E as E'. apply Nat.ltb_ge in E'.
    destruct (split_last2 df ltac:(lia)) as (pre & prev & last & ->).
    unfold generate_signal. rewrite E.
    destruct (iloc_last2 pre prev last) as [-> ->].
    destruct (_ && _ && _); [eexists; split; [reflexivity | tauto]|].
    destruct (_ && _ && _); eexists; split; (reflexivity || tauto).
Qed.

(** C2 (counterexample): the broker reports a long BTC/USD position, the
    fresh signal is "buy", and the engine still sends a buy market order. *)
Lemma no_pyramiding_counterexample :
  env_positions env_long_held Alpaca [CFetch Alpaca "BTC/USD" "1Min" 300] =
    Ok (PList [mkPosition "BTC/USD" "long"]) /\
  generate_signal frame26 = Ok "buy" /\
  order_calls (snd (trade_once env_long_held engine_default "BTC/USD" [])) =
    [(Alpaca, "BTC/USD", "buy")].
Proof.
  split; [reflexivity|]. split; vm_compute; reflexivity.
Qed.

(** C2 (amended): once a non-empty signal is generated, the engine sends
    exactly one market order with that side unless the broker's position
    list already has [max_positions] entries or more; the sides of the held
    positions play no part, and a failed or non-list position query does
    not stop the order. *)
Theorem trade_once_orders_by_position_count env eng sym log b cs sig p
  (Hb : broker_for sym = Some b)
  (Hc : env_candles env b log sym (timeframe eng) 300 = Ok cs)
  (Hs : generate_signal (compute_indicators cs) = Ok sig)
  (Hsig : sig <> "")
  (Hp : env_positions env b (CFetch b sym (timeframe eng) 300 :: log) = p) :
  order_calls (snd (trade_once env eng sym log)) =
  (if match p with
      | Ok (PList ps) => (max_positions eng <=? Z.of_nat (List.length ps))%Z
      | _ => false
      end
   then [] else [(b, sym, sig)]) ++ order_calls log.
Proof.
  unfold trade_once. rewrite Hb.
  unfold bind at 1, fetch_candles. rewrite Hc.
  assert (Hne : compute_indicators cs <> []).
  { intros E. rewrite E in Hs. vm_compute in Hs. injection Hs as Hs. congruence. }
  destruct cs as [|c0 cs0]; [exfalso; apply Hne; reflexivity|].
  unfold bind at 1, lift. rewrite Hs.
  destruct (String.eqb sig "") eqn:Es; [apply String.eqb_eq in Es; congruence|].
  unfold bind at 1, try_except, bind at 1, positions. rewrite Hp.
  destruct p as [[ps|]|e]; unfold ret.
  - destruct (max_positions eng <=? Z.of_nat (List.length ps))%Z; [reflexivity|].
    unfold bind.
    destruct (size_from_risk_ok env eng b sym (compute_indicators (c0 :: cs0))
                (CPositions b :: CFetch b sym (timeframe eng) 300 :: log) Hne) as (q & -> & _).
    unfold market_order. destruct (env_order _ _ _ _ _ _); reflexivity.
  - unfold bind.
    destruct (size_from_risk_ok env eng b sym (compute_indicators (c0 :: cs0))
                (CPositions b :: CFetch b sym (timeframe eng) 300 :: log) Hne) as (q & -> & _).
    unfold market_order. destruct (env_order _ _ _ _ _ _); reflexivity.
  - unfold bind.
    destruct (size_from_risk_ok env eng b sym (compute_indicators (c0 :: cs0))
                (CPositions b :: CFetch b sym (timeframe eng) 300 :: log) Hne) as (q & -> & _).
    unfold market_order. destruct (env_order _ _ _ _ _ _); reflexivity.
Qed.

Lemma trade_once_orders_by_position_count_witness :
  order_calls (snd (trade_once env_long_held engine_default "BTC/USD" [])) =
    [(Alpaca, "BTC/USD", "buy")].
Proof.
  exact (trade_once_orders_by_position_count env_long_held engine_default "BTC/USD" []
           Alpaca candles26 "buy" (Ok (PList [mkPosition "BTC/USD" "long"]))
           eq_refl eq_refl (ltac:(vm_compute; reflexivity)) ltac:(discriminate) eq_refl).
Defined.

(** C4 (counterexample): 30 candles whose close rises at every step: past
    the warm-up, the RSI of the last row is NaN, since the smoothed loss is
    0 and the code replaces it with NaN instead of adding an epsilon. *)
Lemma rsi_all_gains_counterexample :
  List.length candles_rising = 30%nat /\
  nondecreasing (map close candles_rising) /\
  last (rsi_series candles_rising) (Some 0) = None /\
  rsi (nth 29 (compute_indicators candles_rising) (mkRow (mkc 0 0 0 0 0) None None None None)) = None.
Proof.
  split; [reflexivity|]. split; [vm_compute; repeat split; discriminate|].
  split; vm_compute; reflexivity.
Qed.

(** C4 (amended): for every non-empty candle series, the RSI of the last
    row is NaN exactly when no close is below the close before it (in
    particular when every change is a gain): a zero smoothed loss is
    replaced with NaN.  Otherwise the RSI is the number
    100 - 100 / (1 + gain / loss). *)
Theorem rsi_last_nan_iff_no_loss (cs : list Candle) (Hne : cs <> []) :
  last (rsi_series cs) None = None <-> nondecreasing (map close cs).
Proof.
  destruct cs as [|c0 cr]; [congruence|].
  unfold rsi_series, gain_series, loss_series. rewrite closes_map.
  change (map close (c0 :: cr)) with (close c0 :: map close cr).
  rewrite diff_some.
  destruct cr as [|c1 cr'].
  - simpl. split; intros; [exact I | reflexivity].
  - change (map close (c1 :: cr')) with (close c1 :: map close cr').
    change (deltas (close c0) (close c1 :: map close cr'))
      with ((close c1 - close c0) :: deltas (close c1) (map close cr')).
    set (ds := deltas (close c1) (map close cr')).
    set (d1 := close c1 - close c0).
    change (map clip_lower0 (None :: map Some (d1 :: ds)))
      with (None :: map clip_lower0 (map Some (d1 :: ds))).
    change (map (fun d => fneg (clip_upper0 d)) (None :: map Some (d1 :: ds)))
      with (None :: map (fun d => fneg (clip_upper0 d)) (map Some (d1 :: ds))).
    rewrite map_clip_lower0, map_loss.
    change (map (fun d => Qmax d 0) (d1 :: ds)) with (Qmax d1 0 :: map (fun d => Qmax d 0) ds).
    change (map (fun d => - Qmin d 0) (d1 :: ds)) with (- Qmin d1 0 :: map (fun d => - Qmin d 0) ds).
    rewrite !ewm_none_cons.
    rewrite (last_zipF _ _ _ None None);
      [| simpl; rewrite !ewm_go_length, !length_map; reflexivity | discriminate].
    change (last (None :: ?l) None) with (last l None).
    destruct (ewm_go_last_zero (Qmax d1 0) (map (fun d => Qmax d 0) ds))
      as (g & Hg & _ & _);
      [apply Q.le_max_r | apply Forall_map_nonneg; intros; apply Q.le_max_r |].
    assert (Hnn : forall x, 0 <= - Qmin x 0).
    { intros x. destruct (Qlt_le_dec x 0) as [Hl|Hl].
      - rewrite Q.min_l by (apply Qlt_le_weak; exact Hl). lra.
      - rewrite Q.min_r by exact Hl. lra. }
    destruct (ewm_go_last_zero (- Qmin d1 0) (map (fun d => - Qmin d 0) ds))
      as (l & Hl & _ & Hli); [apply Hnn | apply Forall_map_nonneg; exact Hnn |].
    rewrite Hg, Hl, rsi_of_nan, Hli.
    etransitivity; [|apply losses_zero_iff].
    change (map (fun d => - Qmin d 0) (deltas (close c0) (close c1 :: map close cr')))
      with (- Qmin d1 0 :: map (fun d => - Qmin d 0) ds).
    rewrite Forall_cons_iff. reflexivity.
Qed.

Lemma rsi_last_nan_iff_no_loss_witness :
  candles_rising <> [] /\ last (rsi_series candles_rising) None = None.
Proof.
  assert (H : candles_rising <> []) by discriminate.
  split; [exact H|].
  apply (proj2 (rsi_last_nan_iff_no_loss candles_rising H)).
  vm_compute. repeat split; discriminate.
Defined.

(** ** Further properties *)

Lemma lstrip_all_space s : all_space s = true -> lstrip s = "".
Proof.
  induction s as [|c s IH]; simpl; [reflexivity|].
  intros H. apply andb_true_iff in H as [-> H]. exact (IH H).
Qed.

Lemma rstrip_all_space s : all_space s = true -> rstrip s = "".
Proof.
  induction s as [|c s IH]; simpl; [reflexivity|].
  intros H. apply andb_true_iff in H as [Hc H]. rewrite (IH H), Hc. reflexivity.
Qed.

Lemma lstrip_app_space pre s : all_space pre = true -> lstrip (pre ++ s) = lstrip s.
Proof.
  induction pre as [|c pre IH]; simpl; [reflexivity|].
  intros H. apply andb_true_iff in H as [-> H]. exact (IH H).
Qed.

Lemma rstrip_app_space s post : all_space post = true -> rstrip (s ++ post) = rstrip s.
Proof.
  induction s as [|c s IH]; simpl; [apply rstrip_all_space|].
  intros H. rewrite (IH H). reflexivity.
Qed.

Lemma lstrip_app s t :
  lstrip (s ++ t) = if all_space s then lstrip t else (lstrip s ++ t)%string.
Proof.
  induction s as [|c s IH]; simpl; [reflexivity|].
  destruct (py_isspace c); simpl; [exact IH | reflexivity].
Qed.

Lemma strip_pad pre s post :
  all_space pre = true -> all_space post = true -> strip (pre ++ s ++ post) = strip s.
Proof.
  intros Hpre Hpost. unfold strip.
  rewrite lstrip_app_space by exact Hpre. rewrite lstrip_app.
  destruct (all_space s) eqn:Hs.
  - rewrite (lstrip_all_space post Hpost), (lstrip_all_space s Hs). reflexivity.
  - apply rstrip_app_space, Hpost.
Qed.

Lemma strip_all_space s : all_space s = true -> strip s = "".
Proof. intros H. unfold strip. rewrite (lstrip_all_space s H). reflexivity. Qed.

Lemma lower_upper_char c : lower_char (upper_char c) = lower_char c.
Proof. destruct c as [[] [] [] [] [] [] [] []]; reflexivity. Qed.

Lemma lower_upper s : lower (upper s) = lower s.
Proof. induction s as [|c s IH]; simpl; [reflexivity|]. rewrite lower_upper_char, IH. reflexivity. Qed.

Lemma isspace_upper c : py_isspace (upper_char c) = py_isspace c.
Proof. destruct c as [[] [] [] [] [] [] [] []]; reflexivity. Qed.

Lemma lstrip_upper s : lstrip (upper s) = upper (lstrip s).
Proof.
  induction s as [|c s IH]; simpl; [reflexivity|].
  rewrite isspace_upper. destruct (py_isspace c); [exact IH | reflexivity].
Qed.

Lemma upper_empty s : String.eqb (upper s) "" = String.eqb s "".
Proof. destruct s; reflexivity. Qed.

Lemma rstrip_upper s : rstrip (upper s) = upper (rstrip s).
Proof.
  induction s as [|c s IH]; simpl; [reflexivity|].
  rewrite IH, isspace_upper, upper_empty.
  destruct (py_isspace c && String.eqb (rstrip s) ""); reflexivity.
Qed.

Lemma strip_upper s : strip (upper s) = upper (strip s).
Proof. unfold strip. rewrite lstrip_upper, rstrip_upper. reflexivity. Qed.

Lemma substring_full s : substring 0 (String.length s) s = s.
Proof. induction s as [|c s IH]; simpl; [reflexivity|]. rewrite IH. reflexivity. Qed.

Lemma length_append_str s t : String.length (s ++ t) = (String.length s + String.length t)%nat.
Proof. induction s as [|c s IH]; simpl; [reflexivity|]. rewrite IH. reflexivity. Qed.

Lemma substring_after_prefix p t : substring (String.length p) (String.length t) (p ++ t) = t.
Proof. induction p as [|c p IH]; simpl; [apply substring_full | exact IH]. Qed.

Lemma split1_tail_bearer t : split1_tail "Bearer " ("Bearer " ++ t) = Ok t.
Proof.
  unfold split1_tail.
  assert (Hp : String.prefix "" t = true) by (destruct t; reflexivity).
  assert (Hi : String.index 0 "Bearer " ("Bearer " ++ t) = Some 0%nat) by (simpl; rewrite Hp; reflexivity).
  rewrite Hi, length_append_str.
  replace (String.length "Bearer " + String.length t - (0 + String.length "Bearer "))%nat
    with (String.length t) by (simpl; lia).
  rewrite Nat.add_0_l, substring_after_prefix. reflexivity.
Qed.

Lemma get_key_bearer h t :
  truthy (poe_access_key h) = false -> truthy (x_poe_access_key h) = false ->
  truthy (x_access_key h) = false -> authorization h = Some ("Bearer " ++ t)%string ->
  get_access_key_from_headers h = Ok (Some t).
Proof.
  intros H1 H2 H3 H4. unfold get_access_key_from_headers.
  rewrite H1, H2, H3, H4.
  replace (truthy (Some ("Bearer " ++ t)%string) && String.prefix "Bearer " ("Bearer " ++ t))
    with true by (simpl; destruct t; reflexivity).
  rewrite split1_tail_bearer. reflexivity.
Qed.

Lemma get_key_no_bearer h :
  truthy (poe_access_key h) = false -> truthy (x_poe_access_key h) = false ->
  truthy (x_access_key h) = false ->
  (authorization h = None \/ exists a, authorization h = Some a /\ String.prefix "Bearer " a = false) ->
  get_access_key_from_headers h = Ok None.
Proof.
  intros H1 H2 H3 H4. unfold get_access_key_from_headers.
  rewrite H1, H2, H3.
  destruct H4 as [-> | (a & -> & Ha)]; [reflexivity|].
  rewrite Ha, andb_false_r. reflexivity.
Qed.

(** X1: [env_bool] reads only the variable's value once it is set (the default is then ignored); an unset variable gives the default; an empty or all-whitespace value gives false; and surrounding whitespace and letter case of the value do not matter. *)
Lemma env_bool_cases :
  (forall getenv name v d1 d2, getenv name = Some v ->
     env_bool getenv name d1 = env_bool getenv name d2) /\
  (forall getenv name d, getenv name = None -> env_bool getenv name d = d) /\
  (forall getenv name v d, getenv name = Some v -> all_space v = true ->
     env_bool getenv name d = false) /\
  (forall getenv getenv' name pre v post d,
     getenv name = Some (pre ++ v ++ post)%string -> getenv' name = Some (upper v) ->
     all_space pre = true -> all_space post = true ->
     env_bool getenv name d = env_bool getenv' name d).
Proof.
  unfold env_bool. split; [|split; [|split]].
  - intros getenv name v d1 d2 ->. reflexivity.
  - intros getenv name d ->. reflexivity.
  - intros getenv name v d -> H. rewrite (strip_all_space v H). reflexivity.
  - intros getenv getenv' name pre v post d -> -> Hpre Hpost.
    rewrite (strip_pad pre v post Hpre Hpost), strip_upper, lower_upper. reflexivity.
Qed.

Lemma webhook_auth_empty_key h :
  (exists r, get_access_key_from_headers h = Ok r) -> webhook_auth "" h = Ok false.
Proof. intros (r & Hr). unfold webhook_auth. rewrite Hr. reflexivity. Qed.

Lemma get_key_total h : exists r, get_access_key_from_headers h = Ok r.
Proof.
  unfold get_access_key_from_headers.
  destruct (truthy (poe_access_key h)); [eauto|].
  destruct (truthy (x_poe_access_key h)); [eauto|].
  destruct (truthy (x_access_key h)); [eauto|].
  destruct (authorization h) as [a|]; [|eauto].
  destruct (truthy (Some a) && String.prefix "Bearer " a) eqn:E; [|eauto].
  apply andb_true_iff in E as [_ E].
  assert (Ha : exists t, a = ("Bearer " ++ t)%string).
  { clear - E. set (p := "Bearer ") in *. clearbody p. revert a E.
    induction p as [|c p IH]; intros a E; [exists a; reflexivity|].
    destruct a as [|c' a]; [discriminate|]. simpl in E.
    destruct (ascii_dec c c') as [->|]; [|discriminate].
    destruct (IH a E) as (t & ->). exists t. reflexivity. }
  destruct Ha as (t & ->). rewrite split1_tail_bearer. eauto.
Qed.

(** X2: the webhook refuses every request when KEY is empty, and refuses a request that carries no non-empty key header and no Authorization header starting with "Bearer ". *)
Theorem webhook_auth_refuses :
  (forall h, webhook_auth "" h = Ok false) /\
  (forall expected h,
     truthy (poe_access_key h) = false -> truthy (x_poe_access_key h) = false ->
     truthy (x_access_key h) = false ->
     (authorization h = None \/ exists a, authorization h = Some a /\ String.prefix "Bearer " a = false) ->
     webhook_auth expected h = Ok false).
Proof.
  split.
  - intros h. apply webhook_auth_empty_key, get_key_total.
  - intros expected h H1 H2 H3 H4. unfold webhook_auth.
    rewrite (get_key_no_bearer h H1 H2 H3 H4). destruct (String.eqb expected ""); reflexivity.
Qed.

(** X3: the key compared with KEY is the first non-empty one of Poe-Access-Key, X-Poe-Access-Key and X-Access-Key, else the token after "Bearer ". An empty KEY refuses the request; otherwise both are stripped of whitespace, the comparison raises TypeError (the request fails) when either has a non-ASCII character, and the request is accepted exactly when the two are equal. *)
Theorem webhook_auth_key_choice :
  let verdict (expected s : string) : outcome bool :=
    if String.eqb expected "" then Ok false
    else if is_ascii (strip expected) && is_ascii (strip s)
         then Ok (String.eqb (strip expected) (strip s))
         else Raise TypeError_nonascii in
  (forall expected h s, poe_access_key h = Some s -> s <> "" ->
     webhook_auth expected h = verdict expected s) /\
  (forall expected h s, truthy (poe_access_key h) = false ->
     x_poe_access_key h = Some s -> s <> "" ->
     webhook_auth expected h = verdict expected s) /\
  (forall expected h s, truthy (poe_access_key h) = false -> truthy (x_poe_access_key h) = false ->
     x_access_key h = Some s -> s <> "" ->
     webhook_auth expected h = verdict expected s) /\
  (forall expected h t, truthy (poe_access_key h) = false -> truthy (x_poe_access_key h) = false ->
     truthy (x_access_key h) = false -> authorization h = Some ("Bearer " ++ t)%string ->
     webhook_auth expected h = verdict expected t).
Proof.
  intros verdict.
  assert (Ht : forall s, s <> "" -> truthy (Some s) = true).
  { intros s Hs. unfold truthy. destruct (String.eqb_spec s ""); [congruence | reflexivity]. }
  unfold webhook_auth, get_access_key_from_headers.
  split; [|split; [|split]].
  - intros expected h s Hp Hs. rewrite Hp, (Ht s Hs). reflexivity.
  - intros expected h s H1 Hp Hs. rewrite H1, Hp, (Ht s Hs). reflexivity.
  - intros expected h s H1 H2 Hp Hs. rewrite H1, H2, Hp, (Ht s Hs). reflexivity.
  - intros expected h t H1 H2 H3 H4.
    fold (get_access_key_from_headers h).
    rewrite (get_key_bearer h t H1 H2 H3 H4). reflexivity.
Qed.

Lemma split_go_no_space s : no_space s = true -> split_go s = (s, []).
Proof.
  induction s as [|c s IH]; simpl; [reflexivity|].
  intros H. apply andb_true_iff in H as [Hc H]. rewrite (IH H).
  apply negb_true_iff in Hc. rewrite Hc. reflexivity.
Qed.

Lemma dispatch_nonclose text :
  ~ In text ["account"; "acc"; "positions"; "pos"; "start"; "run"; "stop"; "pause"; "status"; "config"] ->
  String.prefix "close" text = false -> dispatch text = Ok AScan.
Proof.
  intros Hn Hc. unfold dispatch.
  repeat match goal with
         | |- context [existsb (String.eqb text) ?l] =>
             replace (existsb (String.eqb text) l) with false
               by (symmetry; apply not_true_iff_false; intros H;
                   apply existsb_exists in H as (x & Hx & E);
                   apply String.eqb_eq in E; subst x; apply Hn; simpl in *; tauto)
         end.
  rewrite Hc. reflexivity.
Qed.

Lemma split_go_sep_word sep w :
  all_space sep = true -> sep <> "" -> no_space w = true -> w <> "" ->
  split_go (sep ++ w) = ("", [w]).
Proof.
  intros Hsep Hne Hw Hwne.
  induction sep as [|c rest IH]; [congruence|].
  simpl in Hsep. apply andb_true_iff in Hsep as [Hc Hrest].
  simpl. destruct rest as [|c' rest'].
  - simpl. rewrite (split_go_no_space w Hw), Hc.
    destruct (String.eqb_spec w "") as [E|_]; [congruence | reflexivity].
  - rewrite IH by (assumption || discriminate). rewrite Hc. reflexivity.
Qed.

(** X4: a text made of "close" followed by no whitespace (such as "close" or "closed") is dispatched as closing on all brokers; "close", then any run of whitespace, then one word is dispatched as closing that word, upper-cased, as one symbol; so "close all" asks to close the symbol "ALL", which no broker serves. *)
Theorem dispatch_close_commands :
  (forall s, no_space s = true -> dispatch ("close" ++ s) = Ok ACloseAll) /\
  (forall sep w, all_space sep = true -> sep <> "" -> no_space w = true -> w <> "" ->
     dispatch ("close" ++ sep ++ w) = Ok (ACloseOne w)) /\
  dispatch "close all" = Ok (ACloseOne "all") /\ upper "all" = "ALL" /\ broker_for "ALL" = None.
Proof.
  split; [|split; [|split; [reflexivity | split; reflexivity]]].
  - intros s Hs. unfold dispatch. simpl.
    assert (Hp : String.prefix "" s = true) by (destruct s; reflexivity). rewrite Hp.
    unfold py_split. rewrite split_go_no_space by (simpl; exact Hs). reflexivity.
  - intros sep w Hsep Hne Hw Hwne.
    assert (Hs : py_split ("close" ++ sep ++ w) = ["close"; w]).
    { unfold py_split. simpl. rewrite split_go_sep_word by assumption. reflexivity. }
    unfold dispatch. rewrite Hs. simpl.
    assert (Hp : String.prefix "" (sep ++ w) = true) by (destruct (sep ++ w)%string; reflexivity).
    rewrite Hp. destruct (String.eqb_spec w "") as [E|_]; [congruence | reflexivity].
Qed.

Lemma last_snoc {A} (l : list A) x d : last (l ++ [x]) d = x.
Proof. apply last_last. Qed.

Lemma extract_text_snoc ms m txt :
  extract_text (BDict (Some (MList (ms ++ [m]))) txt) =
  match (match m with MDict c => or_empty_text c | MNonDict => Raise AttributeError end) with
  | Ok s => lower (strip s) | Raise _ => "" end.
Proof.
  unfold extract_text.
  destruct (ms ++ [m]) as [|m0 l] eqn:E; [destruct ms; discriminate|].
  rewrite <- E, last_snoc. reflexivity.
Qed.

(** X5: an authorised request whose extracted text is empty falls through to the scan; the text is empty for a non-dict body, an empty dict, a truthy non-list messages value, and a last message that is not a dict, has no content, or has a truthy non-string content. *)
Theorem webhook_empty_text_scans expected h (Hauth : webhook_auth expected h = Ok true) :
  (forall body, extract_text body = "" -> webhook_action expected h body = Ok AScan) /\
  extract_text BOther = "" /\ extract_text (BDict None None) = "" /\
  (forall txt, extract_text (BDict (Some (MOther true)) txt) = "") /\
  (forall ms txt, extract_text (BDict (Some (MList (ms ++ [MNonDict]))) txt) = "") /\
  (forall ms txt, extract_text (BDict (Some (MList (ms ++ [MDict (Some JTruthy)]))) txt) = "") /\
  (forall ms txt, extract_text (BDict (Some (MList (ms ++ [MDict None]))) txt) = "").
Proof.
  split; [|split; [reflexivity|split; [reflexivity|split; [reflexivity|]]]].
  - intros body Hb. unfold webhook_action. rewrite Hauth, Hb. reflexivity.
  - split; [|split]; intros ms txt; rewrite extract_text_snoc; reflexivity.
Qed.

Lemma trade_once_enable_auto env eng b sym log :
  trade_once env (set_enable_auto eng b) sym log = trade_once env eng sym log.
Proof. destruct eng; reflexivity. Qed.

Lemma scan_symbols_tick env eng syms log :
  scan_symbols env eng syms log = tick_symbols env eng syms log.
Proof.
  revert log; induction syms as [|s rest IH]; intros log; [reflexivity|].
  simpl. unfold bind, try_except, ret.
  destruct (trade_once env eng s log) as [[r|e] log1]; rewrite IH; reflexivity.
Qed.

Lemma scan_symbols_enable_auto env eng b syms log :
  scan_symbols env (set_enable_auto eng b) syms log = scan_symbols env eng syms log.
Proof.
  revert log; induction syms as [|s rest IH]; intros log; [reflexivity|].
  simpl. unfold bind, try_except, ret. rewrite trade_once_enable_auto.
  destruct (trade_once env eng s log) as [[r|e] log1]; rewrite IH; reflexivity.
Qed.

(** X6: an authorised request whose text is not one of the ten command words and does not start with "close" runs one scan, which makes exactly the broker calls and results of one auto-trading tick and does not depend on whether auto trading is enabled. *)
Theorem webhook_unknown_text_scans expected h body env eng log
  (Hauth : webhook_auth expected h = Ok true)
  (Hcmd : ~ In (extract_text body)
            ["account"; "acc"; "positions"; "pos"; "start"; "run"; "stop"; "pause"; "status"; "config"])
  (Hclose : String.prefix "close" (extract_text body) = false) :
  webhook_action expected h body = Ok AScan /\
  webhook_scan env eng log = loop_tick env eng log /\
  (forall b, webhook_scan env (set_enable_auto eng b) log = webhook_scan env eng log).
Proof.
  split; [|split].
  - unfold webhook_action. rewrite Hauth. apply dispatch_nonclose; assumption.
  - apply scan_symbols_tick.
  - intros b. unfold webhook_scan. apply scan_symbols_enable_auto.
Qed.



Lemma webhook_unknown_text_scans_witness :
  webhook_auth "k" (hdr_poe "k") = Ok true /\
  ~ In (extract_text (BDict (Some (MList [MDict (Some (JStr "Hello"))])) None))
      ["account"; "acc"; "positions"; "pos"; "start"; "run"; "stop"; "pause"; "status"; "config"] /\
  webhook_action "k" (hdr_poe "k") (BDict (Some (MList [MDict (Some (JStr "Hello"))])) None) = Ok AScan.
Proof.
  assert (H1 : webhook_auth "k" (hdr_poe "k") = Ok true) by reflexivity.
  assert (H2 : ~ In (extract_text (BDict (Some (MList [MDict (Some (JStr "Hello"))])) None))
      ["account"; "acc"; "positions"; "pos"; "start"; "run"; "stop"; "pause"; "status"; "config"])
    by (vm_compute; intuition discriminate).
  split; [exact H1|]. split; [exact H2|].
  exact (proj1 (webhook_unknown_text_scans "k" (hdr_poe "k") _ env_long_held engine_default [] H1 H2 eq_refl)).
Defined.

Lemma webhook_empty_text_scans_witness :
  webhook_action "k" (hdr_poe "k") BOther = Ok AScan.
Proof.
  exact (proj1 (webhook_empty_text_scans "k" (hdr_poe "k") eq_refl) BOther eq_refl).
Defined.

Lemma BrokerName_eqb_spec a b : BrokerName_eqb a b = true <-> a = b.
Proof. destruct a, b; simpl; split; intro H; (reflexivity || discriminate H). Qed.

Lemma existsb_broker b seen : existsb (BrokerName_eqb b) seen = true <-> In b seen.
Proof.
  rewrite existsb_exists. split.
  - intros (x & Hx & E). apply BrokerName_eqb_spec in E. subst. exact Hx.
  - intros H. exists b. split; [exact H | apply BrokerName_eqb_spec; reflexivity].
Qed.

Lemma each_broker_spec {A} (call : BrokerName -> M A) (mk : BrokerName -> Call)
  (Hcall : forall b log, snd (call b log) = mk b :: log) seen syms log :
  exists out,
    each_broker call seen syms log = (Ok out, map mk (rev (map fst out)) ++ log) /\
    NoDup (map fst out) /\
    (forall b, In b (map fst out) -> ~ In b seen) /\
    (forall b, In b (map fst out) \/ In b seen <->
               In b seen \/ exists s, In s syms /\ broker_for s = Some b).
Proof.
  revert seen log; induction syms as [|s rest IH]; intros seen log.
  - exists []. split; [reflexivity|]. split; [constructor|]. split; [intros b []|].
    intros b. simpl. split; [intros [[]|H]; left; exact H|].
    intros [H|(x & [] & _)]. right; exact H.
  - simpl. destruct (broker_for s) as [b|] eqn:Hb.
    + destruct (existsb (BrokerName_eqb b) seen) eqn:Hs.
      * apply existsb_broker in Hs.
        destruct (IH seen log) as (out & Hrun & Hnd & Hnew & Hcov).
        exists out. split; [exact Hrun|]. split; [exact Hnd|]. split; [exact Hnew|].
        intros b'. rewrite Hcov. split.
        -- intros [H|(x & Hx & Hbx)]; [left; exact H | right; exists x; auto].
        -- intros [H|(x & [<-|Hx] & Hbx)]; [left; exact H | |right; exists x; auto].
           rewrite Hb in Hbx. injection Hbx as <-. left; exact Hs.
      * assert (Hs' : ~ In b seen) by (intros H; apply existsb_broker in H; congruence).
        unfold bind, try_except, ret.
        destruct (call b log) as [[x|e] l1] eqn:Hcl;
          pose proof (Hcall b log) as Hl; rewrite Hcl in Hl; simpl in Hl; subst l1;
          destruct (IH (b :: seen) (mk b :: log)) as (out & Hrun & Hnd & Hnew & Hcov);
          rewrite Hrun;
          [exists ((b, Ok x) :: out) | exists ((b, Raise e) :: out)];
          (split; [simpl; rewrite map_app, <- app_assoc; reflexivity|]);
          (split; [constructor; [intros H; apply (Hnew b H); left; reflexivity | exact Hnd]|]);
          (split; [intros b' [<-|H]; [exact Hs' | intros H'; apply (Hnew b' H); right; exact H']|]);
          intros b'; simpl; specialize (Hcov b'); simpl in Hcov;
          (split;
           [ intros [[<-|H]|H];
             [ right; exists s; split; [left; reflexivity | exact Hb]
             | destruct (proj1 Hcov (or_introl H)) as [[<-|H2]|(x0 & Hx0 & Hb0)];
               [right; exists s; split; [left; reflexivity | exact Hb]
               | left; exact H2 | right; exists x0; split; [right; exact Hx0 | exact Hb0]]
             | left; exact H ]
           | intros [H|(x0 & [<-|Hx0] & Hb0)];
             [ right; exact H
             | rewrite Hb in Hb0; injection Hb0 as <-; left; left; reflexivity
             | destruct (proj2 Hcov (or_intror (ex_intro _ x0 (conj Hx0 Hb0)))) as [H|[<-|H]];
               [left; right; exact H | left; left; reflexivity | right; exact H] ] ]).
    + destruct (IH seen log) as (out & Hrun & Hnd & Hnew & Hcov).
      exists out. split; [exact Hrun|]. split; [exact Hnd|]. split; [exact Hnew|].
      intros b'. rewrite Hcov. split.
      * intros [H|(x & Hx & Hbx)]; [left; exact H | right; exists x; auto].
      * intros [H|(x & [<-|Hx] & Hbx)]; [left; exact H | congruence | right; exists x; auto].
Qed.

(** X7: the account and positions intents always answer, and query each broker that routes some configured symbol exactly once and no other broker; a failing broker call does not abort the intent. *)
Theorem webhook_brokers_queried_once env eng log :
  (exists out,
     webhook_account env eng log = (Ok out, map CAccount (rev (map fst out)) ++ log) /\
     NoDup (map fst out) /\
     (forall b, In b (map fst out) <-> exists s, In s (symbols eng) /\ broker_for s = Some b)) /\
  (exists out,
     webhook_positions env eng log = (Ok out, map CPositions (rev (map fst out)) ++ log) /\
     NoDup (map fst out) /\
     (forall b, In b (map fst out) <-> exists s, In s (symbols eng) /\ broker_for s = Some b)).
Proof.
  split.
  - destruct (each_broker_spec (account env) CAccount (fun b l => eq_refl) [] (symbols eng) log)
      as (out & Hrun & Hnd & _ & Hcov).
    exists out. split; [exact Hrun|]. split; [exact Hnd|].
    intros b. specialize (Hcov b). simpl in Hcov. tauto.
  - destruct (each_broker_spec (positions env) CPositions (fun b l => eq_refl) [] (symbols eng) log)
      as (out & Hrun & Hnd & _ & Hcov).
    exists out. split; [exact Hrun|]. split; [exact Hnd|].
    intros b. specialize (Hcov b). simpl in Hcov. tauto.
Qed.

Lemma py_str_int_parse (z : Z) :
  z <> 0%Z -> option_map Z.of_int (DecimalString.NilZero.int_of_string (py_str_int z)) = Some z.
Proof.
  intros Hz. unfold py_str_int.
  rewrite DecimalString.NilZero.isi.
  - simpl. rewrite DecimalZ.of_to. reflexivity.
  - destruct z as [|p|p]; [congruence| |]; simpl; intros H; [|discriminate].
    injection H as H. exact (DecimalPos.Unsigned.to_uint_nonnil p H).
  - destruct z as [|p|p]; [congruence| |]; simpl; intros H; [discriminate|].
    injection H as H. exact (DecimalPos.Unsigned.to_uint_nonnil p H).
Qed.

(** X8: for a quantity of at least 1, OANDA's market order sends the truncated whole quantity n (1 <= n <= qty < n + 1) as a decimal string, positive for a side that lower-cases to "buy" and negative for any other side. *)
Theorem oanda_units_whole side q (Hq : 1 <= q) :
  let n := Z.quot (Qnum q) (Zpos (Qden q)) in
  (1 <= n)%Z /\ inject_Z n <= q /\ q < inject_Z n + 1 /\
  exists u, oanda_units side (Some q) = Ok u /\
    option_map Z.of_int (DecimalString.NilZero.int_of_string u) =
      Some (if String.eqb (lower side) "buy" then n else (- n)%Z).
Proof.
  intros n. destruct q as [a d]. unfold Qle in Hq. simpl in Hq, n.
  assert (Hn : n = (a / Zpos d)%Z) by (apply Z.quot_div_nonneg; lia).
  pose proof (Z.div_mod a (Zpos d) ltac:(lia)) as Hdm.
  pose proof (Z.mod_pos_bound a (Zpos d) ltac:(lia)) as Hm.
  assert (H1 : (1 <= n)%Z) by (rewrite Hn; apply Z.div_le_lower_bound; lia).
  split; [exact H1|]. split; [|split].
  - unfold Qle. simpl. rewrite Hn. lia.
  - unfold Qlt, Qplus. simpl. rewrite Hn. nia.
  - unfold oanda_units, py_int.
    destruct (String.eqb (lower side) "buy").
    + eexists. split; [reflexivity|]. apply py_str_int_parse. fold n. lia.
    + eexists. split; [reflexivity|]. simpl.
      rewrite Z.quot_opp_l by lia. apply py_str_int_parse. fold n. lia.
Qed.

Lemma oanda_units_whole_witness :
  1 <= 5 # 2 /\ oanda_units "SELL" (Some (5 # 2)) = Ok "-2" /\
  option_map Z.of_int (DecimalString.NilZero.int_of_string "-2") = Some (-2)%Z.
Proof.
  assert (H : 1 <= 5 # 2) by (unfold Qle; simpl; lia).
  split; [exact H|]. split; [reflexivity|].
  destruct (oanda_units_whole "SELL" (5 # 2) H) as (_ & _ & _ & u & Hu & Hp).
  change (oanda_units "SELL" (Some (5 # 2))) with (Ok (A := string) "-2") in Hu.
  injection Hu as <-. exact Hp.
Defined.

Lemma close_each_spec http cfg
  (Hput : forall l u, exists st body, http_put http l u = Ok (st, body)) ps log :
  exists sts,
    close_each http cfg ps log =
      (Ok (combine (map op_instrument ps) sts),
       rev (map (fun p => HPut (close_url cfg (py_str_opt (op_instrument p)))) ps) ++ log) /\
    List.length sts = List.length ps.
Proof.
  revert log; induction ps as [|p ps IH]; intros log.
  - exists []. split; reflexivity.
  - simpl. unfold hbind, oanda_put_close.
    destruct (Hput log (close_url cfg (py_str_opt (op_instrument p)))) as (st & body & ->).
    destruct (IH (HPut (close_url cfg (py_str_opt (op_instrument p))) :: log)) as (sts & -> & Hl).
    exists (st :: sts). split; [|simpl; rewrite Hl; reflexivity].
    unfold hret. simpl. rewrite <- app_assoc. reflexivity.
Qed.

(** X9: OANDA's close_all without a symbol sends one close request per open position, in order, after the single positions request, and reports one status per position; a 404 on the positions request closes nothing; with a symbol it sends exactly one close request for it. *)
Theorem oanda_close_all_per_position http cfg log
  (Hput : forall l u, exists st body, http_put http l u = Ok (st, body)) :
  (forall st ps, http_get http log (oanda_url cfg "/openPositions") = Ok (st, Some ps) ->
     (st < 400)%Z ->
     exists sts,
       oanda_close_all http cfg None log =
         (Ok (PositionsClosed (combine (map op_instrument ps) sts)),
          rev (map (fun p => HPut (close_url cfg (py_str_opt (op_instrument p)))) ps) ++
          HGet (oanda_url cfg "/openPositions") :: log) /\
       List.length sts = List.length ps) /\
  (forall js, http_get http log (oanda_url cfg "/openPositions") = Ok (404%Z, js) ->
     oanda_close_all http cfg None log =
       (Ok (PositionsClosed []), [HGet (oanda_url cfg "/openPositions")] ++ log)) /\
  (forall sym, sym <> "" ->
     exists st body, oanda_close_all http cfg (Some sym) log =
       (Ok (CloseStatus st body), [HPut (close_url cfg sym)] ++ log)).
Proof.
  split; [|split].
  - intros st ps Hg Hst. unfold oanda_close_all, hbind, oanda_positions. change (truthy None) with false.
    cbv iota beta. rewrite Hg.
    replace (st =? 404)%Z with false by (symmetry; apply Z.eqb_neq; lia).
    replace ((400 <=? st) && (st <? 600))%Z with false
      by (symmetry; apply andb_false_iff; left; apply Z.leb_gt; lia).
    destruct (close_each_spec http cfg Hput ps (HGet (oanda_url cfg "/openPositions") :: log))
      as (sts & -> & Hl).
    exists sts. split; [reflexivity | exact Hl].
  - intros js Hg. unfold oanda_close_all, hbind, oanda_positions. change (truthy None) with false.
    cbv iota beta. rewrite Hg. reflexivity.
  - intros sym Hs. unfold oanda_close_all, hbind, oanda_put_close.
    replace (truthy (Some sym)) with true
      by (unfold truthy; destruct (String.eqb_spec sym ""); [congruence | reflexivity]).
    destruct (Hput log (close_url cfg (py_str_opt (Some sym)))) as (st & body & Hp).
    simpl py_str_opt in Hp. cbv beta iota. simpl py_str_opt. rewrite Hp. exists st, body. reflexivity.
Qed.


Lemma oanda_close_all_per_position_witness :
  (forall l u, exists st body, http_put http_two_positions l u = Ok (st, body)) /\
  exists sts,
    oanda_close_all http_two_positions (mkOandaConfig "https://api-fxpractice.oanda.com" "001") None [] =
    (Ok (PositionsClosed (combine [Some "EUR_USD"; Some "XAU_USD"] sts)),
     [HPut "https://api-fxpractice.oanda.com/v3/accounts/001/positions/XAU_USD/close";
      HPut "https://api-fxpractice.oanda.com/v3/accounts/001/positions/EUR_USD/close";
      HGet "https://api-fxpractice.oanda.com/v3/accounts/001/openPositions"]) /\
    List.length sts = 2%nat.
Proof.
  assert (Hput : forall l u, exists st body, http_put http_two_positions l u = Ok (st, body))
    by (intros l u; exists 200%Z, "{}"; reflexivity).
  split; [exact Hput|].
  exact (proj1 (oanda_close_all_per_position http_two_positions
                  (mkOandaConfig "https://api-fxpractice.oanda.com" "001") [] Hput)
           200%Z _ eq_refl eq_refl).
Defined.

(** *** Indicator invariants *)

Lemma ewm_update_nonneg o a w c :
  0 < a -> a <= 1 -> 0 <= o -> 0 <= w -> 0 <= c ->
  0 <= (o * (1 - a) * w + a * c) / (o * (1 - a) + a).
Proof.
  intros Ha Ha1 Ho Hw Hc.
  assert (H1 : 0 <= o * (1 - a)) by (apply Qmult_le_0_compat; lra).
  assert (H2 : 0 <= o * (1 - a) * w) by (apply Qmult_le_0_compat; lra).
  assert (H3 : 0 <= a * c) by (apply Qmult_le_0_compat; lra).
  apply Qle_shift_div_l; [lra|]. lra.
Qed.


Lemma ewm_go_nonneg a w o xs :
  0 < a -> a <= 1 -> (forall q, w = Some q -> 0 <= q) -> 0 <= o ->
  Forall (fun x => forall q, x = Some q -> 0 <= q) xs ->
  Forall (fun x => forall q, x = Some q -> 0 <= q) (ewm_go a w o xs).
Proof.
  intros Ha Ha1. revert w o; induction xs as [|x xs IH]; intros w o Hw Ho Hx; [constructor|].
  inversion Hx as [|? ? Hx0 Hxs]; subst. simpl.
  destruct w as [w|]; [destruct x as [c|]|].
  - assert (Hw' : 0 <= (if Qeq_bool w c then w
                        else (o * (1 - a) * w + a * c) / (o * (1 - a) + a))).
    { destruct (Qeq_bool w c); [exact (Hw w eq_refl)|].
      apply ewm_update_nonneg; auto. }
    constructor; [intros q E; injection E as <-; exact Hw'|].
    apply IH; [intros q E; injection E as <-; exact Hw' | lra | exact Hxs].
  - constructor; [exact Hw|].
    apply IH; [exact Hw | apply Qmult_le_0_compat; lra | exact Hxs].
  - constructor; [exact Hx0|]. apply IH; [exact Hx0 | exact Ho | exact Hxs].
Qed.

Lemma ewm_nonneg a xs :
  0 < a -> a <= 1 -> Forall (fun x => forall q, x = Some q -> 0 <= q) xs ->
  Forall (fun x => forall q, x = Some q -> 0 <= q) (ewm a xs).
Proof.
  intros Ha Ha1 Hx. destruct xs as [|x xs]; [constructor|].
  inversion Hx; subst. simpl. constructor; [assumption|].
  apply ewm_go_nonneg; auto. lra.
Qed.



Lemma ewm_go_some_nonneg a w o xs :
  0 < a -> a <= 1 -> 0 <= w -> 0 <= o ->
  Forall (fun x => exists q, x = Some q /\ 0 <= q) xs ->
  Forall (fun x => exists q, x = Some q /\ 0 <= q) (ewm_go a (Some w) o xs).
Proof.
  intros Ha Ha1. revert w o; induction xs as [|x xs IH]; intros w o Hw Ho Hx; [constructor|].
  inversion Hx as [|? ? (c & -> & Hc) Hxs]; subst. simpl.
  assert (Hw' : 0 <= (if Qeq_bool w c then w
                      else (o * (1 - a) * w + a * c) / (o * (1 - a) + a))).
  { destruct (Qeq_bool w c); [exact Hw|]. apply ewm_update_nonneg; auto. }
  constructor; [eexists; split; [reflexivity | exact Hw']|].
  apply IH; [exact Hw' | lra | exact Hxs].
Qed.

Lemma build_rows_Forall (Pf Ps Pr Pa : F -> Prop) cs f s r a :
  Forall Pf f -> Forall Ps s -> Forall Pr r -> Forall Pa a ->
  Forall (fun row => Pf (ema_fast row) /\ Ps (ema_slow row) /\ Pr (rsi row) /\ Pa (atr row))
         (build_rows cs f s r a).
Proof.
  revert f s r a; induction cs as [|c cs IH]; intros f s r a Hf Hs Hr Ha; [constructor|].
  destruct f as [|x f], s as [|y s], r as [|z r], a as [|w a]; simpl; try apply Forall_nil.
  inversion Hf; inversion Hs; inversion Hr; inversion Ha; subst.
  constructor; [simpl; tauto | apply IH; assumption].
Qed.

Lemma Forall_map_all {A B} (P : B -> Prop) (f : A -> B) l : (forall x, P (f x)) -> Forall P (map f l).
Proof. intros H. induction l; constructor; auto. Qed.

Lemma Forall_zipF (P Q R : F -> Prop) f xs ys :
  (forall x y, P x -> Q y -> R (f x y)) -> Forall P xs -> Forall Q ys -> Forall R (zipF f xs ys).
Proof.
  intros H. revert ys; induction xs as [|x xs IH]; intros ys Hx Hy; [constructor|].
  destruct ys as [|y ys]; [constructor|].
  inversion Hx; inversion Hy; subst. rewrite zipF_cons. constructor; auto.
Qed.

Lemma rsi_of_range g l :
  (forall q, g = Some q -> 0 <= q) -> (forall q, l = Some q -> 0 <= q) ->
  forall q, rsi_of g l = Some q -> 0 <= q < 100.
Proof.
  intros Hg Hl q. destruct g as [g|], l as [l|]; try discriminate.
  specialize (Hg g eq_refl). specialize (Hl l eq_refl).
  unfold rsi_of, replace0_nan. destruct (Qeq_bool l 0) eqn:E; [discriminate|].
  simpl. intros H. injection H as <-.
  assert (Hl0 : 0 < l).
  { destruct (Qlt_le_dec 0 l) as [H|H]; [exact H|].
    exfalso. assert (l == 0) by lra. apply Qeq_bool_iff in H0. congruence. }
  assert (Hr : 0 <= g / l) by (apply Qle_shift_div_l; lra).
  assert (Hd1 : 100 / (1 + g / l) <= 100) by (apply Qle_shift_div_r; nra).
  assert (Hd2 : 0 < 100 / (1 + g / l)) by (apply Qlt_shift_div_l; lra).
  lra.
Qed.

(** X10: every RSI value computed by [compute_indicators], whenever it is defined, lies between 0 and 100 inclusive. *)
Theorem rsi_in_range cs :
  Forall (fun r => forall q, rsi r = Some q -> 0 <= q <= 100) (compute_indicators cs).
Proof.
  unfold compute_indicators.
  assert (Hr : Forall (fun x => forall q, x = Some q -> 0 <= q < 100) (rsi_series cs)).
  { unfold rsi_series. apply (Forall_zipF (fun x => forall q, x = Some q -> 0 <= q)
                                          (fun x => forall q, x = Some q -> 0 <= q)).
    - exact rsi_of_range.
    - unfold gain_series. apply ewm_nonneg; [reflexivity | discriminate |].
      apply Forall_map_all. intros [d|] q E; [|discriminate].
      injection E as <-. apply Q.le_max_r.
    - unfold loss_series. apply ewm_nonneg; [reflexivity | discriminate |].
      apply Forall_map_all. intros [d|] q E; [|discriminate].
      injection E as <-. destruct (Qlt_le_dec d 0) as [Hl|Hl].
      + rewrite Q.min_l by lra. lra.
      + rewrite Q.min_r by exact Hl. lra. }
  pose proof (build_rows_Forall (fun _ => True) (fun _ => True)
                (fun x => forall q, x = Some q -> 0 <= q < 100) (fun _ => True)
                cs (ema_fast_series cs) (ema_slow_series cs) (rsi_series cs) (atr_series cs)) as H.
  eapply Forall_impl; [|apply H; try exact Hr; apply Forall_forall; auto].
  simpl. intros row (_ & _ & Hq & _) q E. specialize (Hq q E). lra.
Qed.



Lemma length_removelast_cons {A} (x : A) xs : List.length (removelast (x :: xs)) = List.length xs.
Proof.
  revert x; induction xs as [|y ys IH]; intros x; [reflexivity|].
  change (removelast (x :: y :: ys)) with (x :: removelast (y :: ys)).
  cbn [List.length]. rewrite IH. reflexivity.
Qed.

Lemma length_shift xs : List.length (shift xs) = List.length xs.
Proof. destruct xs as [|x xs]; [reflexivity|]. unfold shift. cbn [List.length]. rewrite length_removelast_cons. reflexivity. Qed.

Lemma length_zipF f xs ys : List.length (zipF f xs ys) = Nat.min (List.length xs) (List.length ys).
Proof. unfold zipF. rewrite length_map, length_combine. reflexivity. Qed.

Lemma length_diff xs : List.length (diff xs) = List.length xs.
Proof.
  change (diff xs) with (zipF fsub xs (shift xs)).
  rewrite length_zipF, length_shift. apply Nat.min_id.
Qed.

Lemma series_lengths cs :
  List.length (ema_fast_series cs) = List.length cs /\
  List.length (ema_slow_series cs) = List.length cs /\
  List.length (rsi_series cs) = List.length cs /\
  List.length (atr_series cs) = List.length cs.
Proof.
  unfold ema_fast_series, ema_slow_series, rsi_series, atr_series, tr_series,
    gain_series, loss_series, closes, highs, lows.
  repeat first [rewrite ewm_length | rewrite length_zipF | rewrite length_map
               | rewrite length_diff | rewrite length_shift | rewrite Nat.min_id].
  repeat split; reflexivity.
Qed.

Lemma build_rows_cols cs f s r a :
  List.length f = List.length cs -> List.length s = List.length cs ->
  List.length r = List.length cs -> List.length a = List.length cs ->
  map candle (build_rows cs f s r a) = cs /\ map ema_fast (build_rows cs f s r a) = f /\
  map ema_slow (build_rows cs f s r a) = s /\ map rsi (build_rows cs f s r a) = r /\
  map atr (build_rows cs f s r a) = a.
Proof.
  revert f s r a; induction cs as [|c cs IH]; intros f s r a Hf Hs Hr Ha.
  - destruct f, s, r, a; try discriminate. repeat split; reflexivity.
  - destruct f as [|x f], s as [|y s], r as [|z r], a as [|w a]; try discriminate.
    simpl in *. destruct (IH f s r a) as (H1 & H2 & H3 & H4 & H5); try congruence.
    rewrite H1, H2, H3, H4, H5. repeat split; reflexivity.
Qed.

Lemma compute_indicators_cols cs :
  map candle (compute_indicators cs) = cs /\ map ema_fast (compute_indicators cs) = ema_fast_series cs /\
  map ema_slow (compute_indicators cs) = ema_slow_series cs /\
  map rsi (compute_indicators cs) = rsi_series cs /\ map atr (compute_indicators cs) = atr_series cs.
Proof.
  destruct (series_lengths cs) as (H1 & H2 & H3 & H4).
  apply build_rows_cols; assumption.
Qed.

Lemma removelast_map {A B} (f : A -> B) l : removelast (map f l) = map f (removelast l).
Proof.
  induction l as [|x l IH]; [reflexivity|].
  destruct l as [|y l]; [reflexivity|].
  change (removelast (map f (x :: y :: l))) with (f x :: removelast (map f (y :: l))).
  rewrite IH. reflexivity.
Qed.

Lemma tr_tail_nonneg cs ps :
  Forall (fun x => exists q, x = Some q /\ 0 <= q)
    (zipF np_maximum (zipF fsub (highs cs) (lows cs))
       (zipF np_maximum (map fabs (zipF fsub (highs cs) (map Some ps)))
                        (map fabs (zipF fsub (lows cs) (map Some ps))))).
Proof.
  revert ps; induction cs as [|c cs IH]; intros ps; [constructor|].
  destruct ps as [|p ps]; [constructor|].
  unfold highs, lows in *. repeat progress (cbn [map]; rewrite ?zipF_cons).
  constructor; [|apply IH].
  cbn [fsub fabs np_maximum option_map]. eexists; split; [reflexivity|].
  pose proof (Qabs_nonneg (high c - p)). pose proof (Qabs_nonneg (low c - p)).
  set (m := if Qlt_bool (Qabs (high c - p)) (Qabs (low c - p)) then Qabs (low c - p) else Qabs (high c - p)).
  assert (Hm : 0 <= m) by (unfold m; destruct Qlt_bool; assumption).
  destruct (Qlt_bool (high c - low c) m) eqn:E; [exact Hm|].
  unfold Qlt_bool in E. apply negb_false_iff, Qle_bool_iff in E. lra.
Qed.

(** X12: the ATR of the first row is NaN and the ATR of every later row is a defined, non-negative number. *)
Theorem atr_nan_first_then_nonneg c0 cs :
  exists rest, map atr (compute_indicators (c0 :: cs)) = None :: rest /\
    List.length rest = List.length cs /\
    Forall (fun x => exists q, x = Some q /\ 0 <= q) rest.
Proof.
  destruct (compute_indicators_cols (c0 :: cs)) as (_ & _ & _ & _ & ->).
  set (ps := removelast (close c0 :: map close cs)).
  assert (Hpc : shift (closes (c0 :: cs)) = None :: map Some ps).
  { unfold ps. rewrite closes_map, <- removelast_map. reflexivity. }
  assert (Hlen : List.length ps = List.length cs).
  { unfold ps. rewrite length_removelast_cons, length_map. reflexivity. }
  set (rest := zipF np_maximum (zipF fsub (highs cs) (lows cs))
       (zipF np_maximum (map fabs (zipF fsub (highs cs) (map Some ps)))
                        (map fabs (zipF fsub (lows cs) (map Some ps))))).
  assert (Htr : tr_series (c0 :: cs) = None :: rest).
  { unfold tr_series. rewrite Hpc. reflexivity. }
  assert (Hrest : Forall (fun x => exists q, x = Some q /\ 0 <= q) rest) by apply tr_tail_nonneg.
  assert (Hrl : List.length rest = List.length cs).
  { unfold rest, highs, lows.
    repeat first [rewrite length_zipF | rewrite length_map | rewrite Hlen | rewrite Nat.min_id].
    reflexivity. }
  unfold atr_series. rewrite Htr. simpl ewm.
  exists (ewm_go (1 # 14) None 1 rest). split; [reflexivity|].
  split; [rewrite ewm_go_length; exact Hrl|].
  destruct rest as [|x rest']; [constructor|].
  inversion Hrest as [|? ? (q & -> & Hq) Hr']; subst.
  simpl. constructor; [eauto|].
  apply ewm_go_some_nonneg; [reflexivity | discriminate | exact Hq | discriminate | exact Hr'].
Qed.

(** *** Appending a candle *)

Lemma ewm_go_snoc a w o xs x : exists y, ewm_go a w o (xs ++ [x]) = ewm_go a w o xs ++ [y].
Proof.
  revert w o; induction xs as [|x0 xs IH]; intros w o.
  - simpl. destruct w as [w|]; [destruct x|]; eexists; reflexivity.
  - simpl. destruct w as [w|]; [destruct x0 as [c|]|].
    + destruct (IH (Some (if Qeq_bool w c then w
                     else (o * (1 - a) * w + a * c) / (o * (1 - a) + a))) 1) as [y Hy].
      exists y. rewrite Hy. reflexivity.
    + destruct (IH (Some w) (o * (1 - a))) as [y Hy]. exists y. rewrite Hy. reflexivity.
    + destruct (IH x0 o) as [y Hy]. exists y. rewrite Hy. reflexivity.
Qed.

Lemma ewm_snoc a xs x : exists y, ewm a (xs ++ [x]) = ewm a xs ++ [y].
Proof.
  destruct xs as [|x0 xs]; [exists x; reflexivity|].
  simpl. destruct (ewm_go_snoc a x0 1 xs x) as [y Hy]. exists y. rewrite Hy. reflexivity.
Qed.

Lemma removelast_snoc {A} (xs : list A) x : removelast (xs ++ [x]) = xs.
Proof. apply removelast_last. Qed.

Lemma shift_cons_eq x xs : shift (x :: xs) = None :: removelast (x :: xs).
Proof. reflexivity. Qed.

Lemma shift_snoc xs x : exists y, shift (xs ++ [x]) = shift xs ++ [y].
Proof.
  destruct xs as [|x0 xs]; [exists None; reflexivity|].
  destruct (exists_last (l := x0 :: xs) ltac:(discriminate)) as (init & y & Hl).
  exists y.
  rewrite <- app_comm_cons, !shift_cons_eq, app_comm_cons, removelast_snoc, Hl, removelast_snoc.
  reflexivity.
Qed.

Lemma zipF_snoc f xs ys x y :
  List.length xs = List.length ys -> zipF f (xs ++ [x]) (ys ++ [y]) = zipF f xs ys ++ [f x y].
Proof.
  revert ys; induction xs as [|x0 xs IH]; intros [|y0 ys] H; try discriminate; [reflexivity|].
  rewrite <- !app_comm_cons, !zipF_cons, IH by (simpl in H; congruence). reflexivity.
Qed.

Lemma diff_snoc xs x : exists y, diff (xs ++ [x]) = diff xs ++ [y].
Proof.
  change (diff (xs ++ [x])) with (zipF fsub (xs ++ [x]) (shift (xs ++ [x]))).
  change (diff xs) with (zipF fsub xs (shift xs)).
  destruct (shift_snoc xs x) as [y ->].
  rewrite zipF_snoc by (symmetry; apply length_shift). eexists; reflexivity.
Qed.

Lemma series_snoc cs c :
  (exists x, ema_fast_series (cs ++ [c]) = ema_fast_series cs ++ [x]) /\
  (exists x, ema_slow_series (cs ++ [c]) = ema_slow_series cs ++ [x]) /\
  (exists x, rsi_series (cs ++ [c]) = rsi_series cs ++ [x]) /\
  (exists x, atr_series (cs ++ [c]) = atr_series cs ++ [x]).
Proof.
  assert (Hc : closes (cs ++ [c]) = closes cs ++ @cons F (Some (close c)) nil) by (unfold closes; apply map_app).
  assert (Hh : highs (cs ++ [c]) = highs cs ++ @cons F (Some (high c)) nil) by (unfold highs; apply map_app).
  assert (Hl : lows (cs ++ [c]) = lows cs ++ @cons F (Some (low c)) nil) by (unfold lows; apply map_app).
  assert (Lc : List.length (closes cs) = List.length cs) by apply length_map.
  assert (Lh : List.length (highs cs) = List.length cs) by apply length_map.
  assert (Ll : List.length (lows cs) = List.length cs) by apply length_map.
  destruct (series_lengths cs) as (_ & _ & _ & _).
  unfold ema_fast_series, ema_slow_series, rsi_series, atr_series.
  split; [rewrite Hc; apply ewm_snoc|].
  split; [rewrite Hc; apply ewm_snoc|].
  split.
  - unfold gain_series, loss_series. rewrite Hc.
    destruct (diff_snoc (closes cs) (Some (close c))) as [d ->].
    rewrite !map_app. cbn [map].
    destruct (ewm_snoc (1 # 14) (map clip_lower0 (diff (closes cs))) (clip_lower0 d)) as [g ->].
    destruct (ewm_snoc (1 # 14) (map (fun d => fneg (clip_upper0 d)) (diff (closes cs)))
                (fneg (clip_upper0 d))) as [l ->].
    rewrite zipF_snoc; [eexists; reflexivity|].
    rewrite !ewm_length, !length_map. reflexivity.
  - unfold tr_series. rewrite Hc, Hh, Hl.
    destruct (shift_snoc (closes cs) (Some (close c))) as [p ->].
    assert (Lp : List.length (shift (closes cs)) = List.length cs) by (rewrite length_shift; exact Lc).
    repeat (rewrite zipF_snoc by (unfold closes, highs, lows;
      repeat first [rewrite length_zipF | rewrite length_map | rewrite length_shift]; lia);
      rewrite ?map_app; cbn [map]).
    apply ewm_snoc.
Qed.

Lemma build_rows_snoc cs f s r a c x y z w :
  List.length f = List.length cs -> List.length s = List.length cs ->
  List.length r = List.length cs -> List.length a = List.length cs ->
  build_rows (cs ++ [c]) (f ++ [x]) (s ++ [y]) (r ++ [z]) (a ++ [w]) =
  build_rows cs f s r a ++ [mkRow c x y z w].
Proof.
  revert f s r a; induction cs as [|c0 cs IH]; intros f s r a Hf Hs Hr Ha.
  - destruct f, s, r, a; try discriminate. reflexivity.
  - destruct f as [|x0 f], s as [|y0 s], r as [|z0 r], a as [|w0 a]; try discriminate.
    simpl in *. rewrite IH by congruence. reflexivity.
Qed.

Lemma compute_indicators_snoc cs c :
  exists r, compute_indicators (cs ++ [c]) = compute_indicators cs ++ [r] /\ candle r = c.
Proof.
  destruct (series_snoc cs c) as ([x Hx] & [y Hy] & [z Hz] & [w Hw]).
  destruct (series_lengths cs) as (L1 & L2 & L3 & L4).
  unfold compute_indicators. rewrite Hx, Hy, Hz, Hw.
  exists (mkRow c x y z w). rewrite build_rows_snoc by assumption. split; reflexivity.
Qed.

(** X13: [compute_indicators] keeps the candles in their order, one row per candle, and appending a candle only appends one row: the rows of the earlier candles are unchanged. *)
Theorem compute_indicators_causal cs c :
  map candle (compute_indicators cs) = cs /\
  exists r, compute_indicators (cs ++ [c]) = compute_indicators cs ++ [r] /\ candle r = c.
Proof.
  split; [apply compute_indicators_cols | apply compute_indicators_snoc].
Qed.

(** *** Signals over a growing series *)

Lemma generate_signal_eq pre prev last :
  (23 <= List.length pre)%nat ->
  generate_signal (pre ++ [prev; last]) =
  if fle (ema_fast prev) (ema_slow prev) && fgt (ema_fast last) (ema_slow last)
     && flt (rsi last) (Some 70) then Ok "buy"
  else if fge (ema_fast prev) (ema_slow prev) && flt (ema_fast last) (ema_slow last)
          && fgt (rsi last) (Some 30) then Ok "sell"
  else Ok "".
Proof.
  intros Hlen. unfold generate_signal.
  rewrite length_app. simpl List.length.
  replace (Nat.ltb (List.length pre + 2) 25) with false by (symmetry; apply Nat.ltb_ge; lia).
  destruct (iloc_last2 pre prev last) as [-> ->]. reflexivity.
Qed.

Lemma fle_fgt_excl (a b : F) : fgt a b = true -> fle a b = false.
Proof.
  unfold fgt, flt, fle. destruct a as [x|], b as [y|]; try reflexivity.
  intros H. apply Qlt_bool_iff in H. destruct (Qle_bool x y) eqn:E; [|reflexivity].
  apply Qle_bool_iff in E. lra.
Qed.

Lemma fge_flt_excl (a b : F) : flt a b = true -> fge a b = false.
Proof.
  unfold fge, flt, fle. destruct a as [x|], b as [y|]; try reflexivity.
  intros H. apply Qlt_bool_iff in H. destruct (Qle_bool y x) eqn:E; [|reflexivity].
  apply Qle_bool_iff in E. lra.
Qed.

(** X14: a non-empty signal is never produced again on the next bar: if the series gives "buy" (or "sell"), the series extended by any candle does not give the same signal. *)
Theorem signal_not_repeated cs c sig
  (Hs : generate_signal (compute_indicators cs) = Ok sig) (Hne : sig <> ""%string) :
  generate_signal (compute_indicators (cs ++ [c])) <> Ok sig.
Proof.
  destruct (compute_indicators_snoc cs c) as (r & -> & _).
  set (df := compute_indicators cs) in *.
  destruct (Nat.ltb (List.length df) 25) eqn:E.
  - unfold generate_signal in Hs. rewrite E in Hs. injection Hs as <-. contradiction.
  - apply Nat.ltb_ge in E.
    destruct (split_last2 df ltac:(lia)) as (pre & prev & last & Hdf).
    rewrite Hdf in Hs, E |- *. rewrite length_app in E. simpl in E.
    rewrite generate_signal_eq in Hs by lia.
    replace ((pre ++ [prev; last]) ++ [r]) with ((pre ++ [prev]) ++ [last; r])
      by (rewrite <- !app_assoc; reflexivity).
    rewrite generate_signal_eq by (rewrite length_app; simpl; lia).
    revert Hs.
    destruct (fle (ema_fast prev) (ema_slow prev) && fgt (ema_fast last) (ema_slow last)
              && flt (rsi last) (Some 70)) eqn:Eb; intros Hs.
    + injection Hs as <-.
      apply andb_true_iff in Eb as [Eb _]. apply andb_true_iff in Eb as [_ Eb].
      rewrite (fle_fgt_excl _ _ Eb). simpl.
      match goal with |- (if ?b then _ else _) <> _ => destruct b end; discriminate.
    + destruct (fge (ema_fast prev) (ema_slow prev) && flt (ema_fast last) (ema_slow last)
                && fgt (rsi last) (Some 30)) eqn:Es; [|injection Hs as <-; contradiction].
      injection Hs as <-.
      apply andb_true_iff in Es as [Es _]. apply andb_true_iff in Es as [_ Es].
      rewrite (fge_flt_excl _ _ Es). simpl andb. cbv iota.
      match goal with |- (if ?b then _ else _) <> _ => destruct b end; discriminate.
Qed.

Lemma signal_not_repeated_witness :
  generate_signal (compute_indicators candles26) = Ok "buy" /\
  generate_signal (compute_indicators (candles26 ++ [mkc 26 120 121 119 120])) <> Ok "buy".
Proof.
  assert (H : generate_signal (compute_indicators candles26) = Ok "buy") by (vm_compute; reflexivity).
  split; [exact H|].
  apply (signal_not_repeated candles26 (mkc 26 120 121 119 120) "buy" H). discriminate.
Defined.

(** *** Orders sent by a trade step and by a tick *)

Lemma generate_signal_values df :
  exists s, generate_signal df = Ok s /\ (s = "buy" \/ s = "sell" \/ s = "")%string.
Proof.
  destruct (Nat.ltb (List.length df) 25) eqn:E.
  - exists ""%string; split; [unfold generate_signal; rewrite E; reflexivity | tauto].
  - apply Nat.ltb_ge in E.
    destruct (split_last2 df ltac:(lia)) as (pre & prev & last & ->).
    rewrite length_app in E. simpl in E.
    rewrite generate_signal_eq by lia.
    destruct (_ && _ && _); [eexists; split; [reflexivity | tauto]|].
    destruct (_ && _ && _); eexists; split; (reflexivity || tauto).
Qed.

Lemma compute_indicators_nonempty c cs : compute_indicators (c :: cs) <> [].
Proof.
  intros H. destruct (compute_indicators_cols (c :: cs)) as (Hc & _).
  rewrite H in Hc. discriminate.
Qed.

Lemma trade_once_calls env eng sym log :
  exists new, snd (trade_once env eng sym log) = new ++ log /\
  (forall b s sd q, In (COrder b s sd q) new ->
     new = [COrder b s sd q; CAccount b; CPositions b; CFetch b sym (timeframe eng) 300] /\
     broker_for sym = Some b /\ s = sym /\ (sd = "buy" \/ sd = "sell")%string /\
     exists x, q = Some x /\ 1 <= x).
Proof.
  unfold trade_once.
  destruct (broker_for sym) as [br|] eqn:Hb; [|exists []; split; [reflexivity | intros ? ? ? ? []]].
  unfold bind at 1, fetch_candles.
  destruct (env_candles env br log sym (timeframe eng) 300) as [df|e].
  2:{ exists [CFetch br sym (timeframe eng) 300]; split; [reflexivity|].
      intros ? ? ? ? [H|[]]; discriminate. }
  destruct df as [|c0 cs0].
  { exists [CFetch br sym (timeframe eng) 300]; split; [reflexivity|].
    intros ? ? ? ? [H|[]]; discriminate. }
  set (log1 := CFetch br sym (timeframe eng) 300 :: log).
  destruct (generate_signal_values (compute_indicators (c0 :: cs0))) as (sig & Hg & Hsig).
  unfold bind at 1, lift. rewrite Hg.
  destruct (String.eqb sig "") eqn:Es.
  { exists [CFetch br sym (timeframe eng) 300]; split; [reflexivity|].
    intros ? ? ? ? [H|[]]; discriminate. }
  assert (Hsig' : (sig = "buy" \/ sig = "sell")%string).
  { destruct Hsig as [H|[H|H]]; [tauto|tauto|]. subst. discriminate. }
  unfold bind at 1, try_except, positions, bind at 1, ret.
  set (log2 := CPositions br :: log1).
  destruct (env_positions env br log1) as [p|e2].
  2:{ destruct (size_from_risk_ok env eng br sym (compute_indicators (c0 :: cs0)) log2
                  (compute_indicators_nonempty c0 cs0)) as (q & Hq & Hq1).
      unfold bind. rewrite Hq. unfold market_order, ret. simpl snd.
      exists [COrder br sym sig (Some q); CAccount br; CPositions br; CFetch br sym (timeframe eng) 300].
      split; [destruct (env_order _ _ _ _ _ _); reflexivity|].
      intros b s sd q' Hin.
      destruct Hin as [Hin|[Hin|[Hin|[Hin|[]]]]]; try discriminate.
      injection Hin as <- <- <- <-. repeat split; eauto. }
  destruct (match p with PList ps => _ | PObject => false end).
  { exists [CPositions br; CFetch br sym (timeframe eng) 300]; split; [reflexivity|].
    intros ? ? ? ? [H|[H|[]]]; discriminate. }
  destruct (size_from_risk_ok env eng br sym (compute_indicators (c0 :: cs0)) log2
              (compute_indicators_nonempty c0 cs0)) as (q & Hq & Hq1).
  unfold bind. rewrite Hq. unfold market_order, ret. simpl snd.
  exists [COrder br sym sig (Some q); CAccount br; CPositions br; CFetch br sym (timeframe eng) 300].
  split; [destruct (env_order _ _ _ _ _ _); reflexivity|].
  intros b s sd q' Hin.
  destruct Hin as [Hin|[Hin|[Hin|[Hin|[]]]]]; try discriminate.
  injection Hin as <- <- <- <-. repeat split; eauto.
Qed.

Lemma order_calls_app l1 l2 : order_calls (l1 ++ l2) = order_calls l1 ++ order_calls l2.
Proof. unfold order_calls. apply flat_map_app. Qed.

Lemma in_order_calls b s sd l : In (b, s, sd) (order_calls l) -> exists q, In (COrder b s sd q) l.
Proof.
  unfold order_calls. intros H. apply in_flat_map in H as (c & Hin & H).
  destruct c; try contradiction. destruct H as [H|[]]. injection H as -> -> ->. eauto.
Qed.

Lemma order_calls_at_most_one new sym tf :
  (forall b s sd q, In (COrder b s sd q) new ->
     new = [COrder b s sd q; CAccount b; CPositions b; CFetch b sym tf 300]) ->
  (List.length (order_calls new) <= 1)%nat.
Proof.
  intros H. destruct (order_calls new) as [|[[b s] sd] rest] eqn:E; [simpl; lia|].
  destruct (in_order_calls b s sd new) as (q & Hq); [rewrite E; left; reflexivity|].
  rewrite (H _ _ _ _ Hq) in E. simpl in E. inversion E. simpl. lia.
Qed.

(** X15: one trade step appends its broker calls to the log and sends at most one order; an order follows exactly a candle fetch, a positions query and an account query to the routed broker, for the step's symbol, with side "buy" or "sell" and a quantity of at least 1. *)
Theorem trade_once_order_shape env eng sym log :
  exists new, snd (trade_once env eng sym log) = new ++ log /\
  (List.length (order_calls new) <= 1)%nat /\
  (forall b s sd q, In (COrder b s sd q) new ->
     new = [COrder b s sd q; CAccount b; CPositions b; CFetch b sym (timeframe eng) 300] /\
     broker_for sym = Some b /\ s = sym /\ (sd = "buy" \/ sd = "sell")%string /\
     exists x, q = Some x /\ 1 <= x).
Proof.
  destruct (trade_once_calls env eng sym log) as (new & Hn & Ho).
  exists new. split; [exact Hn|]. split; [|exact Ho].
  apply (order_calls_at_most_one new sym (timeframe eng)).
  intros b s sd q Hin. apply (Ho _ _ _ _ Hin).
Qed.

(** X16: when the candles give no signal (none at all, or a flat one), a trade step makes only the candle request: no positions or account query and no order. *)
Theorem trade_once_flat_only_fetches env eng sym log b cs
  (Hb : broker_for sym = Some b)
  (Hc : env_candles env b log sym (timeframe eng) 300 = Ok cs)
  (Hflat : generate_signal (compute_indicators cs) = Ok ""%string) :
  trade_once env eng sym log =
  (Ok (match cs with [] => RWarn sym "no candles" | _ => RSignal sym "" end),
   [CFetch b sym (timeframe eng) 300] ++ log).
Proof.
  unfold trade_once. rewrite Hb. unfold bind at 1, fetch_candles. rewrite Hc.
  destruct cs as [|c0 cs0]; [reflexivity|].
  unfold bind at 1, lift. rewrite Hflat. reflexivity.
Qed.

Lemma trade_once_flat_only_fetches_witness :
  trade_once env_flat engine_default "BTC/USD" [] =
  (Ok (RSignal "BTC/USD" ""), [CFetch Alpaca "BTC/USD" "1Min" 300]).
Proof.
  exact (trade_once_flat_only_fetches env_flat engine_default "BTC/USD" [] Alpaca candles24
           eq_refl eq_refl ltac:(vm_compute; reflexivity)).
Defined.

Lemma tick_symbols_blocks env eng syms log :
  exists blocks, snd (tick_symbols env eng syms log) = List.concat (rev blocks) ++ log /\
  Forall2 (fun sym blk =>
     (List.length (order_calls blk) <= 1)%nat /\
     (forall b s sd q, In (COrder b s sd q) blk ->
        s = sym /\ broker_for sym = Some b /\ (sd = "buy" \/ sd = "sell")%string /\
        exists x, q = Some x /\ 1 <= x)) syms blocks.
Proof.
  revert log; induction syms as [|sym rest IH]; intros log.
  - exists []. split; [reflexivity | constructor].
  - rewrite tick_symbols_cons.
    destruct (trade_once_calls env eng sym log) as (new1 & Hn1 & Ho1).
    destruct (trade_once env eng sym log) as [o log1]. simpl in Hn1. subst log1.
    destruct (IH (new1 ++ log)) as (blocks & Hn2 & Hb).
    destruct (tick_symbols env eng rest (new1 ++ log)) as [o2 log2]. simpl in Hn2. subst log2.
    exists (new1 :: blocks). split.
    + simpl rev. rewrite concat_app. simpl List.concat. rewrite app_nil_r, <- app_assoc.
      destruct o2; reflexivity.
    + constructor; [|exact Hb]. split.
      * apply (order_calls_at_most_one new1 sym (timeframe eng)).
        intros b s sd q H. exact (proj1 (Ho1 b s sd q H)).
      * intros b s sd q Hin. destruct (Ho1 _ _ _ _ Hin) as (_ & H2 & -> & H3 & H4). auto.
Qed.

(** X17: the broker calls of one auto-trading tick are one block per entry of the symbol list, in list order; each block holds at most one order, and that order is for the entry's symbol, goes to the broker the symbol routes to, has side "buy" or "sell" and a quantity of at least 1. A symbol listed once thus gets at most one order per tick (a symbol listed twice can get two). *)
Theorem tick_orders_bounded env eng log :
  exists blocks, snd (loop_tick env eng log) = List.concat (rev blocks) ++ log /\
  Forall2 (fun sym blk =>
     (List.length (order_calls blk) <= 1)%nat /\
     (forall b s sd q, In (COrder b s sd q) blk ->
        s = sym /\ broker_for sym = Some b /\ (sd = "buy" \/ sd = "sell")%string /\
        exists x, q = Some x /\ 1 <= x)) (symbols eng) blocks.
Proof. apply tick_symbols_blocks. Qed.
